(** * elc (ensi-local-ctl): the home-config store and the command surface

    A shallow embedding of [homeconfig.go] and of the commands of
    [commands.go] that register workspaces, stop and destroy services and
    execute a command in a service container, with the properties of their
    resolution and persistence logic. *)

From stdpp Require Import gmap strings list.
From Stdlib Require Import ZArith Ascii.

Set Default Proof Using "Type".

(** ** Errors and results

    A Go [error] built with [errors.New] is its message. *)

Definition error := string.

Inductive result (A : Type) : Type :=
| Ok (a : A)
| Err (e : error).
Arguments Ok {A} a.
Arguments Err {A} e.

Definition nl : string := String (Ascii.ascii_of_nat 10) "".

(** ** The home-config document ([homeconfig.go]) *)

Record HomeConfigItem := {
  Item_Name : string;
  Item_Path : string;
}.

Record HomeConfig := {
  Home_Path : string;          (* yaml:"-" : not serialised *)
  CurrentWorkspace : string;
  UpdateCommand : string;
  Workspaces : list HomeConfigItem;
}.

Definition defaultUpdateCommand : string :=
  "curl -sSL https://raw.githubusercontent.com/MadridianFox/ensi-local-ctl/master/get.sh | sudo bash".

(** ** Workspace manifest and service parameters

    The struct declarations of the manifest and of the parameter blocks live
    outside the two files embedded here; the fields are the ones the commands
    read and write. *)

Record DependsOn := {
  Dep_Name : string;
  Dep_Mode : string;
}.

(** Modelled from the spec: the service definition [{name, path, dependsOn}]
    of the workspace manifest (struct [ServiceConfig], declared elsewhere). *)
Record ServiceConfig := {
  Svc_Name : string;
  Svc_Path : string;
  Dependencies : list DependsOn;
}.

(** Modelled from the spec: the module definition [{name, hostedIn, execPath}]
    (struct [ModuleConfig], declared elsewhere; the commands read [HostedIn]
    and [ExecPath]). *)
Record ModuleConfig := {
  Mdl_Name : string;
  HostedIn : string;
  ExecPath : string;
}.

(** Modelled from the spec: the workspace manifest with its resolution
    context (struct [MainConfig], declared elsewhere).  Services and modules
    are kept in declaration order. *)
Record MainConfig := {
  WorkspacePath : string;
  Cwd : string;
  Services : list ServiceConfig;
  Modules : list ModuleConfig;
}.

Record SvcStartParams := {
  Mode : string;
  Force : bool;
}.

Record SvcComposeParams := {
  SvcName : string;
  Cmd : list string;
}.

(** [SvcExecParams] embeds [SvcComposeParams] and [SvcStartParams]. *)
Record SvcExecParams := {
  Exec_Compose : SvcComposeParams;
  Exec_Start : SvcStartParams;
  UID : Z;
  WorkingDir : string;
}.

(** The object [CreateFromSvcName] returns. *)
Record Service := {
  Service_Name : string;
  Service_Config : MainConfig;
}.

(** ** The world a command runs in

    The content of a file is represented by what [yaml.Unmarshal] decodes it
    to: a home-config document (the three serialised fields), or an error. *)

Inductive FileData :=
| HomeYaml (current update : string) (workspaces : list HomeConfigItem)
| BadYaml (e : error).

(** Method calls on a [Service]. *)
Inductive SvcCall :=
| CallStop
| CallDestroy
| CallExec (params : SvcExecParams).

(** What a command does to its surroundings, in order. *)
Inductive Event :=
| EvWriteFile (path : string) (data : FileData)
| EvPrint (s : string)
| EvSvc (svc : Service) (call : SvcCall).

Record World := {
  w_files : gmap string FileData;
  w_trace : list Event;
}.

Definition emit (e : Event) (w : World) : World :=
  {| w_files := w_files w; w_trace := w_trace w ++ [e] |}.

(** ** Commands: world passing with errors

    A failing step stops the command; what it did to the world stays. *)

Definition M (A : Type) : Type := World -> result A * World.

Definition ret {A} (a : A) : M A := fun w => (Ok a, w).
Definition throw {A} (e : error) : M A := fun w => (Err e, w).
Definition bind {A B} (m : M A) (k : A -> M B) : M B :=
  fun w => match m w with
           | (Ok a, w') => k a w'
           | (Err e, w') => (Err e, w')
           end.
Definition lift {A} (r : result A) : M A := fun w => (r, w).

Notation "'do' x <- m ; k" := (bind m (fun x => k))
  (at level 10, x name, m at level 100, k at level 200, only parsing).
Notation "m ;; k" := (bind m (fun _ => k))
  (at level 100, k at level 200, right associativity, only parsing).

(** ** What the commands call outside the embedded files

    [Pc] is the process context (file system, terminal, working directory);
    the manifest methods and the service methods are elsewhere in the
    package; [strconv] is Go's.  Whether a write or a service call fails is
    decided by the surroundings from what happened so far.  [NeedHelp]
    receives the arguments and the usage line; the lines of help text it
    prints are left out. *)

Class Collaborators := {
  (* help *)
  NeedHelp : list string -> string -> bool;
  (* Pc *)
  Getwd : result string;
  Getuid : Z;
  WriteFileErr : list Event -> string -> FileData -> option error;
  (* strconv.ParseInt(s, 0, 64), as the int flag uses it *)
  ParseInt : string -> result Z;
  (* MainConfig *)
  NewConfig : string -> string -> MainConfig;
  LoadFromFile : MainConfig -> World -> result MainConfig;
  checkVersion : MainConfig -> result unit;
  FindServiceByPath : MainConfig -> result string;
  FindModuleByPath : MainConfig -> result ModuleConfig;
  FindModuleByName : MainConfig -> string -> result ModuleConfig;
  renderPath : MainConfig -> string -> result string;
  GetAllSvcNames : MainConfig -> list string;
  (* Service *)
  CreateFromSvcName : MainConfig -> string -> result Service;
  SvcCallResult : list Event -> Service -> SvcCall -> result Z;
}.

Section HomeConfigStore.
Context `{Collaborators}.

(** *** Pc: files and terminal *)

Definition FileExists (path : string) : M bool :=
  fun w => (Ok (bool_decide (is_Some (w_files w !! path))), w).

Definition ReadFile (path : string) : M FileData :=
  fun w => match w_files w !! path with
           | Some d => (Ok d, w)
           | None => (Err ("open " +:+ path +:+ ": no such file or directory"), w)
           end.

Definition WriteFile (path : string) (data : FileData) : M unit :=
  fun w => match WriteFileErr (w_trace w) path data with
           | Some e => (Err e, emit (EvWriteFile path data) w)
           | None =>
               (Ok tt, {| w_files := <[path := data]> (w_files w);
                          w_trace := w_trace w ++ [EvWriteFile path data] |})
           end.

Definition Printf (s : string) : M unit :=
  fun w => (Ok tt, emit (EvPrint s) w).

(** *** yaml *)

Definition Marshal (hc : HomeConfig) : FileData :=
  HomeYaml (CurrentWorkspace hc) (UpdateCommand hc) (Workspaces hc).

Definition Unmarshal (d : FileData) : result HomeConfig :=
  match d with
  | HomeYaml cur upd wss =>
      Ok {| Home_Path := ""; CurrentWorkspace := cur;
            UpdateCommand := upd; Workspaces := wss |}
  | BadYaml e => Err e
  end.

(** *** homeconfig.go *)

Definition LoadHomeConfig (configPath : string) : M HomeConfig :=
  do yamlFile <- ReadFile configPath;
  do cfg <- lift (Unmarshal yamlFile);
  ret {| Home_Path := configPath;
         CurrentWorkspace := CurrentWorkspace cfg;
         UpdateCommand := UpdateCommand cfg;
         Workspaces := Workspaces cfg |}.

Definition SaveHomeConfig (homeConfig : HomeConfig) : M unit :=
  WriteFile (Home_Path homeConfig) (Marshal homeConfig).

Definition CheckHomeConfigIsEmpty (configPath : string) : M unit :=
  do exists_ <- FileExists configPath;
  if (exists_ : bool) then ret tt
  else SaveHomeConfig {| Home_Path := configPath; CurrentWorkspace := "";
                         UpdateCommand := defaultUpdateCommand;
                         Workspaces := [] |}.

(** [AddWorkspace] changes its receiver and then saves it: the receiver
    after the call, and the save. *)
Definition AddWorkspace (hc : HomeConfig) (name path : string)
  : HomeConfig * M unit :=
  let hc' := {| Home_Path := Home_Path hc;
                CurrentWorkspace := CurrentWorkspace hc;
                UpdateCommand := UpdateCommand hc;
                Workspaces := Workspaces hc
                              ++ [{| Item_Name := name; Item_Path := path |}] |} in
  (hc', SaveHomeConfig hc').

Fixpoint GetCurrentWsPath_loop (current : string) (wss : list HomeConfigItem)
  : result string :=
  match wss with
  | [] => Err "current workspace is bad"
  | hci :: rest =>
      if String.eqb (Item_Name hci) current then Ok (Item_Path hci)
      else GetCurrentWsPath_loop current rest
  end.

Definition GetCurrentWsPath (hc : HomeConfig) : result string :=
  if String.eqb (CurrentWorkspace hc) "" then Err "current workspace is not set"
  else GetCurrentWsPath_loop (CurrentWorkspace hc) (Workspaces hc).

Fixpoint findWorkspace_loop (name : string) (wss : list HomeConfigItem)
  : option HomeConfigItem :=
  match wss with
  | [] => None
  | workspace :: rest =>
      if String.eqb (Item_Name workspace) name then Some workspace
      else findWorkspace_loop name rest
  end.

Definition findWorkspace (hc : HomeConfig) (name : string)
  : option HomeConfigItem :=
  findWorkspace_loop name (Workspaces hc).

(** *** commands.go: the workspace registry *)

Definition checkAndLoadHC (homeConfigPath : string) : M HomeConfig :=
  CheckHomeConfigIsEmpty homeConfigPath ;;
  do hc <- LoadHomeConfig homeConfigPath;
  ret hc.

Definition setCurrent (hc : HomeConfig) (name : string) : HomeConfig :=
  {| Home_Path := Home_Path hc; CurrentWorkspace := name;
     UpdateCommand := UpdateCommand hc; Workspaces := Workspaces hc |}.

Definition CmdWorkspaceAdd (homeConfigPath : string) (args : list string)
  : M unit :=
  if NeedHelp args "workspace add NAME PATH" then ret tt else
  do hc <- checkAndLoadHC homeConfigPath;
  match args with
  | [name; wsPath] =>
      match findWorkspace hc name with
      | Some _ =>
          throw ("workspace with name '" +:+ name +:+ "' already exists")
      | None =>
          let '(hc, save) := AddWorkspace hc name wsPath in
          save ;;
          Printf ("workspace '" +:+ name +:+ "' is added" +:+ nl) ;;
          if String.eqb (CurrentWorkspace hc) "" then
            let hc := setCurrent hc name in
            SaveHomeConfig hc ;;
            Printf ("active workspace changed to '" +:+ name +:+ "'" +:+ nl)
          else ret tt
      end
  | _ => throw "command requires exactly 2 arguments"
  end.

Definition CmdWorkspaceSelect (homeConfigPath : string) (args : list string)
  : M unit :=
  if NeedHelp args "workspace select NAME" then ret tt else
  do hc <- checkAndLoadHC homeConfigPath;
  match args with
  | [name] =>
      match findWorkspace hc name with
      | None =>
          throw ("workspace with name '" +:+ name +:+ "' is not defined")
      | Some _ =>
          let hc := setCurrent hc name in
          SaveHomeConfig hc ;;
          Printf ("active workspace changed to '" +:+ name +:+ "'" +:+ nl)
      end
  | _ => throw "command requires exactly 1 argument"
  end.

End HomeConfigStore.

(** The world after [CheckHomeConfigIsEmpty] created the document. *)
Definition initialised (path : string) (w : World) : World :=
  {| w_files := <[path := HomeYaml "" defaultUpdateCommand []]> (w_files w);
     w_trace := w_trace w
                ++ [EvWriteFile path (HomeYaml "" defaultUpdateCommand [])] |}.

(** A workspace of that name is registered. *)
Definition registered (name : string) (wss : list HomeConfigItem) : Prop :=
  name ∈ map Item_Name wss.

(** The invariant of the document: a current workspace is a registered one. *)
Definition homeInvariant (current : string) (wss : list HomeConfigItem) : Prop :=
  current <> "" -> registered current wss.

(** ** Go's [flag] package, as far as the commands use it

    A flag set is the list of its defined flags with their current values;
    [Parse] follows [FlagSet.Parse] with [ContinueOnError]: flags are read
    up to the first argument that is not a flag, or up to [--]. *)

Inductive FlagValue :=
| BoolFlag (b : bool)
| StringFlag (s : string)
| IntFlag (z : Z).

Definition FlagSet := list (string * FlagValue).

Fixpoint flagLookup (name : string) (fs : FlagSet) : option FlagValue :=
  match fs with
  | [] => None
  | (n, v) :: rest => if String.eqb n name then Some v else flagLookup name rest
  end.

Fixpoint flagSet (name : string) (v : FlagValue) (fs : FlagSet) : FlagSet :=
  match fs with
  | [] => []
  | (n, v0) :: rest =>
      if String.eqb n name then (n, v) :: rest
      else (n, v0) :: flagSet name v rest
  end.

Definition flagBool (name : string) (fs : FlagSet) : bool :=
  match flagLookup name fs with Some (BoolFlag b) => b | _ => false end.

Definition flagString (name : string) (fs : FlagSet) : string :=
  match flagLookup name fs with Some (StringFlag s) => s | _ => "" end.

Definition flagInt (name : string) (fs : FlagSet) : Z :=
  match flagLookup name fs with Some (IntFlag z) => z | _ => 0%Z end.

(** [strconv.ParseBool] *)
Definition ParseBool (s : string) : option bool :=
  if existsb (String.eqb s) ["1"; "t"; "T"; "TRUE"; "true"; "True"] then Some true
  else if existsb (String.eqb s) ["0"; "f"; "F"; "FALSE"; "false"; "False"] then Some false
  else None.

Inductive Token :=
| NotFlag
| Terminator
| BadSyntax
| IsFlag (name : string) (value : option string).

(** The text up to the first [=], and the text after it. *)
Fixpoint splitAtEq (s : string) : string * option string :=
  match s with
  | EmptyString => ("", None)
  | String c rest =>
      if Ascii.eqb c "="%char then ("", Some rest)
      else let '(n, v) := splitAtEq rest in (String c n, v)
  end.

(** The first lines of [parseOne]: is the argument a flag, which one, and
    does it carry a value ([-name=value]; the [=] cannot come first). *)
Definition classify (s : string) : Token :=
  match s with
  | String "-"%char (String c rest as s1) =>
      if Ascii.eqb c "-"%char && String.eqb rest "" then Terminator
      else
        let name := if Ascii.eqb c "-"%char then rest else s1 in
        match name with
        | EmptyString => BadSyntax
        | String c0 rest0 =>
            if Ascii.eqb c0 "-"%char || Ascii.eqb c0 "="%char then BadSyntax
            else let '(n, v) := splitAtEq rest0 in IsFlag (String c0 n) v
        end
  | _ => NotFlag
  end.

Definition quote : string := String (Ascii.ascii_of_nat 34) "".
Definition backslash : string := String (Ascii.ascii_of_nat 92) "".

Definition lowerhex (n : nat) : string :=
  String (Ascii.ascii_of_nat (if Nat.ltb n 10 then 48 + n else 87 + n)) "".

(** [strconv.Quote] on one byte of a string of one-byte characters: the
    quote and the backslash are escaped, the control characters are written
    with their letter or as [\x] and two digits, every other byte stands
    for itself (as the bytes of a printable non-ASCII character do). *)
Definition quoteByte (c : ascii) : string :=
  let n := nat_of_ascii c in
  if Nat.eqb n 34 then backslash +:+ quote
  else if Nat.eqb n 92 then backslash +:+ backslash
  else if Nat.eqb n 7 then backslash +:+ "a"
  else if Nat.eqb n 8 then backslash +:+ "b"
  else if Nat.eqb n 12 then backslash +:+ "f"
  else if Nat.eqb n 10 then backslash +:+ "n"
  else if Nat.eqb n 13 then backslash +:+ "r"
  else if Nat.eqb n 9 then backslash +:+ "t"
  else if Nat.eqb n 11 then backslash +:+ "v"
  else if Nat.ltb n 32 || Nat.eqb n 127
       then backslash +:+ "x" +:+ lowerhex (n / 16) +:+ lowerhex (n mod 16)
  else String c "".

Fixpoint quoteBody (s : string) : string :=
  match s with
  | EmptyString => EmptyString
  | String c rest => quoteByte c +:+ quoteBody rest
  end.

(** [%q] of the [fmt] package on a string. *)
Definition goQuote (s : string) : string := quote +:+ quoteBody s +:+ quote.

Section Flags.
Context `{Collaborators}.

Definition flagParseValue (name : string) (old : FlagValue) (value : string)
  : result FlagValue :=
  match old with
  | BoolFlag _ =>
      match ParseBool value with
      | Some b => Ok (BoolFlag b)
      | None => Err ("invalid boolean value " +:+ goQuote value
                     +:+ " for -" +:+ name +:+ ": parse error")
      end
  | StringFlag _ => Ok (StringFlag value)
  | IntFlag _ =>
      match ParseInt value with
      | Ok z => Ok (IntFlag z)
      | Err e => Err ("invalid value " +:+ goQuote value
                      +:+ " for flag -" +:+ name +:+ ": " +:+ e)
      end
  end.

(** [FlagSet.Parse]: the flag set after parsing and the remaining arguments
    ([fs.Args()]). *)
Fixpoint Parse (fs : FlagSet) (arguments : list string)
  : result (FlagSet * list string) :=
  match arguments with
  | [] => Ok (fs, [])
  | s :: rest =>
      match classify s with
      | NotFlag => Ok (fs, arguments)
      | Terminator => Ok (fs, rest)
      | BadSyntax => Err ("bad flag syntax: " +:+ s)
      | IsFlag name value =>
          match flagLookup name fs with
          | None =>
              if String.eqb name "help" || String.eqb name "h"
              then Err "flag: help requested"
              else Err ("flag provided but not defined: -" +:+ name)
          | Some (BoolFlag b) =>
              match flagParseValue name (BoolFlag b) (default "true" value) with
              | Ok v => Parse (flagSet name v fs) rest
              | Err e => Err e
              end
          | Some old =>
              match value, rest with
              | Some val, _ =>
                  match flagParseValue name old val with
                  | Ok v => Parse (flagSet name v fs) rest
                  | Err e => Err e
                  end
              | None, val :: rest' =>
                  match flagParseValue name old val with
                  | Ok v => Parse (flagSet name v fs) rest'
                  | Err e => Err e
                  end
              | None, [] => Err ("flag needs an argument: -" +:+ name)
              end
          end
      end
  end.

End Flags.

(** The parameter block of [CmdServiceExec] when it calls [Service.Exec]:
    the flags have filled [Mode], [Force] and [UID]; [Cmd] is [fs.Args()];
    [SvcName] and [WorkingDir] come from the resolution. *)
Definition execParamsOf (fs : FlagSet) (cmd : list string)
  (svcName workingDir : string) : SvcExecParams :=
  {| Exec_Compose := {| SvcName := svcName; Cmd := cmd |};
     Exec_Start := {| Mode := flagString "mode" fs;
                      Force := flagBool "force" fs |};
     UID := flagInt "uid" fs;
     WorkingDir := workingDir |}.

(** ** commands.go: services *)

Section ServiceCommands.
Context `{Collaborators}.

(** A method of [Service]: recorded, and answered by the surroundings. *)
Definition callSvc (svc : Service) (call : SvcCall) : M Z :=
  fun w => (SvcCallResult (w_trace w) svc call, emit (EvSvc svc call) w).

Definition getWorkspaceConfig (homeConfigPath : string) : M MainConfig :=
  do hc <- checkAndLoadHC homeConfigPath;
  do wsPath <- lift (GetCurrentWsPath hc);
  do cwd <- lift Getwd;
  let cfg := NewConfig wsPath cwd in
  do cfg <- (fun w => (LoadFromFile cfg w, w));
  lift (checkVersion cfg) ;;
  ret cfg.

Definition addStartFlags (fs : FlagSet) : FlagSet :=
  fs ++ [("mode", StringFlag "default"); ("force", BoolFlag false)].

Definition addComposeFlags (fs : FlagSet) : FlagSet :=
  fs ++ [("svc", StringFlag "")].

Definition addExecFlags (fs : FlagSet) : FlagSet :=
  fs ++ [("uid", IntFlag Getuid)].

(** The loop over the service names of [stop] and [destroy]: the first
    error returns. *)
Fixpoint forEachSvc (cfg : MainConfig) (call : SvcCall) (svcNames : list string)
  : M unit :=
  match svcNames with
  | [] => ret tt
  | svcName :: rest =>
      do svc <- lift (CreateFromSvcName cfg svcName);
      callSvc svc call ;;
      forEachSvc cfg call rest
  end.

(** The body [CmdServiceStop] and [CmdServiceDestroy] share; they differ in
    the usage line and in the method they call. *)
Definition stopOrDestroy (usage : string) (call : SvcCall)
  (homeConfigPath : string) (args : list string) : M unit :=
  if NeedHelp args usage then ret tt else
  do cfg <- getWorkspaceConfig homeConfigPath;
  do parsed <- lift (Parse [("all", BoolFlag false)] args);
  let all := flagBool "all" (fst parsed) in
  let svcNames := if all then GetAllSvcNames cfg else args in
  match svcNames with
  | _ :: _ => forEachSvc cfg call svcNames
  | [] =>
      do svcName <- lift (FindServiceByPath cfg);
      do svc <- lift (CreateFromSvcName cfg svcName);
      callSvc svc call ;;
      ret tt
  end.

Definition CmdServiceStop : string -> list string -> M unit :=
  stopOrDestroy "stop [NAMES...]" CallStop.

Definition CmdServiceDestroy : string -> list string -> M unit :=
  stopOrDestroy "destroy [NAMES...]" CallDestroy.

(** The resolution step of [CmdServiceExec]: the value of the outer variable
    [mdl] and of [execParams.SvcName] after the [if].  With [--svc] the
    module found by name is bound by [mdl, err := ...] to a variable of the
    inner block, and the outer [mdl] stays nil.  A lookup that fails returns
    a nil module. *)
Definition resolveExecTarget (cfg : MainConfig) (svcName : string)
  : result (option ModuleConfig * string) :=
  if String.eqb svcName "" then
    match FindModuleByPath cfg with
    | Ok mdl => Ok (Some mdl, HostedIn mdl)
    | Err _ =>
        match FindServiceByPath cfg with
        | Ok name => Ok (None, name)
        | Err e => Err e
        end
    end
  else
    match FindModuleByName cfg svcName with
    | Ok mdl' => Ok (None, HostedIn mdl')
    | Err _ => Ok (None, svcName)
    end.

Definition CmdServiceExec (homeConfigPath : string) (args : list string)
  : M Z :=
  if NeedHelp args "[OPTIONS] COMMAND [ARGS]" then ret 0%Z else
  let fs := addExecFlags (addStartFlags (addComposeFlags [])) in
  do parsed <- lift (Parse fs args);
  let fs := fst parsed in
  let cmd := snd parsed in
  do cfg <- getWorkspaceConfig homeConfigPath;
  do target <- lift (resolveExecTarget cfg (flagString "svc" fs));
  let mdl := fst target in
  let svcName := snd target in
  do workingDir <- match mdl with
                   | Some mdl => lift (renderPath cfg (ExecPath mdl))
                   | None => ret ""
                   end;
  let execParams := execParamsOf fs cmd svcName workingDir in
  do svc <- lift (CreateFromSvcName cfg svcName);
  do returnCode <- callSvc svc (CallExec execParams);
  ret returnCode.

End ServiceCommands.

(** *** Processing a list of targets in order

    The calls a run issued on the services [svcs], and what it means that
    the targets [names] were processed in the order given, stopping at the
    first failure: either every target was created and called, or the run
    stopped at the first target whose call failed, or at the first target
    that could not be created. *)

Definition callsOf (call : SvcCall) (svcs : list Service) : list Event :=
  map (fun s => EvSvc s call) svcs.

Definition after (w : World) (call : SvcCall) (svcs : list Service) : World :=
  {| w_files := w_files w; w_trace := w_trace w ++ callsOf call svcs |}.

Section InOrder.
Context `{Collaborators}.
Variable cfg : MainConfig.
Variable call : SvcCall.
Variable trace : list Event.

Definition created (names : list string) (svcs : list Service) : Prop :=
  Forall2 (fun n s => CreateFromSvcName cfg n = Ok s) names svcs.

(** Each call on [svcs], issued after the calls before it, succeeded. *)
Definition allOk (svcs : list Service) : Prop :=
  forall i s, svcs !! i = Some s ->
    exists code,
      SvcCallResult (trace ++ callsOf call (take i svcs)) s call = Ok code.

Inductive InOrder (names : list string) : result unit -> list Service -> Prop :=
| AllDone svcs :
    created names svcs -> allOk svcs ->
    InOrder names (Ok tt) svcs
| CallFailed pre n post svcs s e :
    names = pre ++ n :: post ->
    created pre svcs -> allOk svcs ->
    CreateFromSvcName cfg n = Ok s ->
    SvcCallResult (trace ++ callsOf call svcs) s call = Err e ->
    InOrder names (Err e) (svcs ++ [s])
| CreateFailed pre n post svcs e :
    names = pre ++ n :: post ->
    created pre svcs -> allOk svcs ->
    CreateFromSvcName cfg n = Err e ->
    InOrder names (Err e) svcs.

End InOrder.

(** ** The manifest methods, from the specification

    [config.go] and [service.go] are not among the embedded files.  The
    definitions of this module follow the specification's description of
    the path resolver and of the manifest, and give the commands an
    environment to run in. *)

Module SpecModel.

(** Modelled from the spec: the declared root [root] "is an ancestor of (or
    equal to)" the directory [dir] (the ancestor test of the absent
    [FindServiceByPath] and [FindModuleByPath]). *)
Definition isAncestorOrEqual (root dir : string) : bool :=
  String.eqb root dir || String.prefix (root +:+ "/") dir.

Definition longest {A} (path : A -> string) (l : list A) : nat :=
  foldr (fun x n => Nat.max (String.length (path x)) n) 0 l.

(** Modelled from the spec: the resolution rule of the absent
    [FindServiceByPath] and [FindModuleByPath]: among the entries whose path
    is an ancestor of (or equal to) the working directory "the
    longest-matching prefix wins"; "ties in prefix length are a
    configuration error ... and must fail"; no match is a not-found error. *)
Definition resolveByPath {A} (path : A -> string) (cwd : string) (l : list A)
  : result A :=
  let ms := List.filter (fun x => isAncestorOrEqual (path x) cwd) l in
  let n := longest path ms in
  match List.filter (fun x => Nat.eqb (String.length (path x)) n) ms with
  | [] => Err "not found"
  | [x] => Ok x
  | _ => Err "ambiguous"
  end.

(** Modelled from the spec: [findServiceByPath(cwd) -> ServiceName |
    NotFoundError] (method [FindServiceByPath] of the absent [MainConfig]). *)
Definition findServiceByPath (cfg : MainConfig) : result string :=
  match resolveByPath Svc_Path (Cwd cfg) (Services cfg) with
  | Ok svc => Ok (Svc_Name svc)
  | Err e => Err ("service " +:+ e)
  end.

(** Modelled from the spec: [findModuleByPath(cwd) -> ModuleDef |
    NotFoundError], which scans "module execPath entries under the same
    rule" (method [FindModuleByPath] of the absent [MainConfig]). *)
Definition findModuleByPath (cfg : MainConfig) : result ModuleConfig :=
  match resolveByPath ExecPath (Cwd cfg) (Modules cfg) with
  | Ok mdl => Ok mdl
  | Err e => Err ("module " +:+ e)
  end.

(** Modelled from the spec: [findModuleByName(name) -> ModuleDef |
    NotFoundError] (method [FindModuleByName] of the absent [MainConfig]). *)
Definition findModuleByName (cfg : MainConfig) (name : string)
  : result ModuleConfig :=
  match List.find (fun m => String.eqb (Mdl_Name m) name) (Modules cfg) with
  | Some mdl => Ok mdl
  | None => Err ("module '" +:+ name +:+ "' is not found")
  end.

(** Modelled from the spec: "every service name present in the manifest ...
    in manifest declaration order" (method [GetAllSvcNames] of the absent
    [MainConfig]). *)
Definition allSvcNames (cfg : MainConfig) : list string :=
  map Svc_Name (Services cfg).

Definition declared (cfg : MainConfig) (name : string) : bool :=
  existsb (String.eqb name) (map Svc_Name (Services cfg)).

(** Modelled from the spec: a name resolves to the service of that name, an
    unknown name is a not-found error (the absent [CreateFromSvcName]). *)
Definition createFromSvcName (cfg : MainConfig) (svcName : string)
  : result Service :=
  if declared cfg svcName
  then Ok {| Service_Name := svcName; Service_Config := cfg |}
  else Err ("service '" +:+ svcName +:+ "' is not found").

(** [strconv.ParseInt(s, 0, 64)] of Go's library, with the two errors as
    the [flag] package words them.  [lower c] is [c | 0x20]. *)
Definition lower (c : nat) : nat := Nat.lor c 32.

Definition between (lo c hi : nat) : bool := Nat.leb lo c && Nat.leb c hi.

Inductive NumError := ErrSyntax | ErrRange.

Inductive Saw := SawStart | SawDigit | SawUnderscore | SawOther.

Fixpoint underscoreLoop (hex : bool) (s : string) (saw : Saw) : bool :=
  match s with
  | EmptyString => match saw with SawUnderscore => false | _ => true end
  | String c rest =>
      let c := nat_of_ascii c in
      if between 48 c 57 || (hex && between 97 (lower c) 102)
      then underscoreLoop hex rest SawDigit
      else if Nat.eqb c 95
      then match saw with
           | SawDigit => underscoreLoop hex rest SawUnderscore
           | _ => false
           end
      else match saw with
           | SawUnderscore => false
           | _ => underscoreLoop hex rest SawOther
           end
  end.

Definition underscoreOK (s : string) : bool :=
  let s := match s with
           | String "-"%char rest | String "+"%char rest => rest
           | _ => s
           end in
  match s with
  | String "0"%char (String p rest) =>
      let p := lower (nat_of_ascii p) in
      if Nat.eqb p 98 || Nat.eqb p 111 || Nat.eqb p 120
      then underscoreLoop (Nat.eqb p 120) rest SawDigit
      else underscoreLoop false s SawStart
  | _ => underscoreLoop false s SawStart
  end.

Definition maxUint64 : Z := (2 ^ 64 - 1)%Z.

(** The digit loop of [ParseUint]: the number read and whether an underscore
    was seen. *)
Fixpoint parseDigits (base : Z) (s : string) (n : Z) (underscores : bool)
  : NumError + Z * bool :=
  match s with
  | EmptyString => inr (n, underscores)
  | String c rest =>
      let c := nat_of_ascii c in
      if Nat.eqb c 95 then parseDigits base rest n true else
      let d := if between 48 c 57 then Some (c - 48)
               else if between 97 (lower c) 122 then Some (lower c - 97 + 10)
               else None in
      match d with
      | None => inl ErrSyntax
      | Some d =>
          if (base <=? Z.of_nat d)%Z then inl ErrSyntax
          else if (maxUint64 / base + 1 <=? n)%Z then inl ErrRange
          else let n1 := (n * base + Z.of_nat d)%Z in
               if (maxUint64 <? n1)%Z then inl ErrRange
               else parseDigits base rest n1 underscores
      end
  end.

(** [strconv.ParseUint(s, 0, 64)]; on a range error the number is the
    largest one. *)
Definition ParseUint (s : string) : NumError + Z :=
  match s with
  | EmptyString => inl ErrSyntax
  | _ =>
      let '(base, body) :=
        match s with
        | String "0"%char (String p (String c rest) as tail) =>
            let p := lower (nat_of_ascii p) in
            if Nat.eqb p 98 then (2%Z, String c rest)
            else if Nat.eqb p 111 then (8%Z, String c rest)
            else if Nat.eqb p 120 then (16%Z, String c rest)
            else (8%Z, tail)
        | String "0"%char rest => (8%Z, rest)
        | _ => (10%Z, s)
        end in
      match parseDigits base body 0%Z false with
      | inl e => inl e
      | inr (n, underscores) =>
          if underscores && negb (underscoreOK s) then inl ErrSyntax
          else inr n
      end
  end.

Definition parseInt (s : string) : result Z :=
  match s with
  | EmptyString => Err "parse error"
  | String c rest =>
      let '(neg, body) :=
        if Ascii.eqb c "+"%char then (false, rest)
        else if Ascii.eqb c "-"%char then (true, rest)
        else (false, s) in
      match ParseUint body with
      | inl ErrSyntax => Err "parse error"
      | r =>
          let un := match r with inr un => un | inl _ => maxUint64 end in
          let cutoff := (2 ^ 63)%Z in
          if negb neg && (cutoff <=? un)%Z then Err "value out of range"
          else if neg && (cutoff <? un)%Z then Err "value out of range"
          else Ok (if neg then (- un)%Z else un)
      end
  end.

(** A manifest document: what the workspace at a given root declares. *)
Definition Manifests := string -> option (list ServiceConfig * list ModuleConfig).

(** An environment: the working directory, the manifests on disk and the
    container engine's answers are given; writes succeed; help is asked for
    with a first argument [--help]; paths render to themselves. *)
Definition env (cwd : string) (manifests : Manifests)
  (engine : list Event -> Service -> SvcCall -> result Z) : Collaborators :=
  {| NeedHelp args _ :=
       match args with
       | a :: _ => String.eqb a "--help"
       | [] => false
       end;
     Getwd := Ok cwd;
     Getuid := 1000%Z;
     WriteFileErr _ _ _ := None;
     ParseInt := parseInt;
     NewConfig wsPath cwd :=
       {| WorkspacePath := wsPath; Cwd := cwd; Services := []; Modules := [] |};
     LoadFromFile cfg _ :=
       match manifests (WorkspacePath cfg) with
       | Some (svcs, mdls) =>
           Ok {| WorkspacePath := WorkspacePath cfg; Cwd := Cwd cfg;
                 Services := svcs; Modules := mdls |}
       | None => Err "workspace.yaml: no such file or directory"
       end;
     checkVersion _ := Ok tt;
     FindServiceByPath := findServiceByPath;
     FindModuleByPath := findModuleByPath;
     FindModuleByName := findModuleByName;
     renderPath _ p := Ok p;
     GetAllSvcNames := allSvcNames;
     CreateFromSvcName := createFromSvcName;
     SvcCallResult := engine |}.

End SpecModel.

(** ** The dependency planner, from the specification

    [Service.Start] and [Service.Restart] are not among the embedded files;
    the planner below follows the algorithm the specification gives for
    them. *)

Module Planner.

(** What the planner answers: the services to bring up, in the order in
    which they are to be brought up, or why there is no plan. *)
Inductive Outcome :=
| Planned (order : list string)
| CyclicDependencyError (cycle : list string)
| NotFoundError (name : string).

Section Plan.
Variable cfg : MainConfig.
Variable mode : string.
Variable force : bool.
Variable isRunning : string -> bool.

Definition findService (name : string) : option ServiceConfig :=
  List.find (fun s => String.eqb (Svc_Name s) name) (Services cfg).

(** Modelled from the spec: "filtering out any dependency whose mode does
    not equal the requested mode": the dependency names of a service that
    the traversal of the absent [Service.Start] follows. *)
Definition deps (svc : ServiceConfig) : list string :=
  map Dep_Name
      (List.filter (fun d => String.eqb (Dep_Mode d) mode) (Dependencies svc)).

Definition onList (name : string) (l : list string) : bool :=
  existsb (String.eqb name) l.

(** Modelled from the spec: "unless force is set, a dependency already
    reported running ... is skipped (treated as satisfied, not restarted)";
    by the idempotence property a running target is not brought up either. *)
Definition skipped (name : string) : bool :=
  negb force && isRunning name.

(** The part of the current path that closes the cycle at [name]; the path
    lists the services being visited, the target first. *)
Fixpoint cycleFrom (name : string) (path : list string) : list string :=
  match path with
  | [] => []
  | p :: rest =>
      if String.eqb p name then path else cycleFrom name rest
  end.

(** The loop over the dependencies of one service: [step] visits one
    dependency; an error stops the loop. *)
Fixpoint visitAll (step : list string -> string -> option Outcome)
  (ds : list string) (order : list string) : option Outcome :=
  match ds with
  | [] => Some (Planned order)
  | d :: ds' =>
      match step order d with
      | Some (Planned order') => visitAll step ds' order'
      | other => other
      end
  end.

(** Modelled from the spec: the traversal of the absent [Service.Start]:
    "a depth-first traversal of the target's dependsOn edges", dependencies
    "before the target"; "if traversal revisits a node still on the current
    path, fail with a CyclicDependencyError naming the cycle".  [order] is
    what has been planned so far; [fuel] bounds the depth of the walk and
    [None] means that it ran out. *)
Fixpoint visit (fuel : nat) (path order : list string) (name : string)
  : option Outcome :=
  match fuel with
  | 0 => None
  | S fuel =>
      if onList name path
      then Some (CyclicDependencyError (cycleFrom name path ++ [name]))
      else if onList name order || skipped name then Some (Planned order)
      else
        match findService name with
        | None => Some (NotFoundError name)
        | Some svc =>
            match visitAll (visit fuel (path ++ [name])) (deps svc) order with
            | Some (Planned order') => Some (Planned (order' ++ [name]))
            | other => other
            end
        end
  end.

(** Modelled from the spec: the plan of a start or restart of [target]
    (the absent [Service.Start] and [Service.Restart]): the services to
    bring up, in order.  A path never holds a service twice, so a walk is
    never deeper than the number of declared services. *)
Definition plan (target : string) : option Outcome :=
  visit (S (length (Services cfg))) [] [] target.

(** The edges the traversal follows, and the services it enters. *)
Definition edge (a b : string) : Prop :=
  exists svc, findService a = Some svc /\ b ∈ deps svc.

Definition follows (a b : string) : Prop :=
  edge a b /\ skipped b = false.

Definition isDeclared (name : string) : Prop :=
  name ∈ map Svc_Name (Services cfg).

(** Modelled from the spec: the manifest invariant "every dependsOn entry
    must reference an existing service name". *)
Definition depsDeclared : Prop :=
  forall svc d, svc ∈ Services cfg -> d ∈ Dependencies svc ->
                isDeclared (Dep_Name d).

(** A walk along followed edges. *)
Inductive walk : string -> list string -> string -> Prop :=
| walk_one a b : follows a b -> walk a [] b
| walk_step a b mid c : follows a b -> walk b mid c -> walk a (b :: mid) c.

Definition reaches (a b : string) : Prop :=
  a = b \/ exists mid, walk a mid b.

Definition onCycle (c : string) : Prop :=
  exists mid, walk c mid c.

(** A list of services that names a cycle: it starts and ends with the same
    service and each service depends (in the requested mode) on the next. *)
Fixpoint chain (l : list string) : Prop :=
  match l with
  | a :: (b :: _) as rest => edge a b /\ chain rest
  | _ => True
  end.

Definition namesCycle (c : list string) : Prop :=
  exists n mid, c = n :: mid ++ [n] /\ chain c.

(** What the traversal keeps true of the services planned so far: the
    dependencies they follow are planned too, and none of them lies on a
    cycle. *)
Definition Closed (order : list string) : Prop :=
  forall a b, a ∈ order -> follows a b -> b ∈ order.

Definition Acyclic (order : list string) : Prop :=
  forall a, a ∈ order -> ~ onCycle a.

(** [order'] extends [order] and keeps both. *)
Definition keeps (order order' : list string) : Prop :=
  (forall x, x ∈ order -> x ∈ order') /\ Closed order' /\ Acyclic order'.

(** The manifest declares that [a] depends on [b], in whatever mode. *)
Definition declaresDep (a b : string) : bool :=
  existsb (fun s => String.eqb (Svc_Name s) a
                    && existsb (fun d => String.eqb (Dep_Name d) b)
                               (Dependencies s))
          (Services cfg).

End Plan.
End Planner.

(** ** Scenarios

    A home directory with one registered workspace [main] at [/ws], whose
    manifest declares four services and two modules. *)

Module Scenario.

Definition homePath : string := "/home/dev/.elc.yaml".

Definition web : ServiceConfig :=
  {| Svc_Name := "web"; Svc_Path := "/ws/web";
     Dependencies := [ {| Dep_Name := "db"; Dep_Mode := "default" |};
                       {| Dep_Name := "worker"; Dep_Mode := "default" |} ] |}.
Definition worker : ServiceConfig :=
  {| Svc_Name := "worker"; Svc_Path := "/ws/worker";
     Dependencies := [ {| Dep_Name := "db"; Dep_Mode := "default" |} ] |}.
Definition db : ServiceConfig :=
  {| Svc_Name := "db"; Svc_Path := "/ws/db"; Dependencies := [] |}.
Definition api : ServiceConfig :=
  {| Svc_Name := "api"; Svc_Path := "/ws/api"; Dependencies := [] |}.

Definition api_cli : ModuleConfig :=
  {| Mdl_Name := "api-cli"; HostedIn := "api"; ExecPath := "/app/bin" |}.
Definition web_cli : ModuleConfig :=
  {| Mdl_Name := "web-cli"; HostedIn := "api"; ExecPath := "/ws/web/cli" |}.

Definition manifests : SpecModel.Manifests :=
  fun root =>
    if String.eqb root "/ws"
    then Some ([web; worker; db; api], [api_cli; web_cli])
    else None.

(** The manifest as loaded when the command runs in [cwd]. *)
Definition cfg (cwd : string) : MainConfig :=
  {| WorkspacePath := "/ws"; Cwd := cwd;
     Services := [web; worker; db; api]; Modules := [api_cli; web_cli] |}.

Definition svc (cwd name : string) : Service :=
  {| Service_Name := name; Service_Config := cfg cwd |}.

(** A container engine on which every call succeeds with exit code 0, and
    one on which calls on [worker] fail. *)
Definition engineOk : list Event -> Service -> SvcCall -> result Z :=
  fun _ _ _ => Ok 0%Z.
Definition engineWorkerDown : list Event -> Service -> SvcCall -> result Z :=
  fun _ s _ =>
    if String.eqb (Service_Name s) "worker" then Err "exit status 1" else Ok 0%Z.

Definition mainWs : HomeConfigItem :=
  {| Item_Name := "main"; Item_Path := "/ws" |}.

Definition home : FileData := HomeYaml "main" defaultUpdateCommand [mainWs].


(** The surroundings of a command run in [cwd]. *)
Definition envAt (cwd : string) : Collaborators :=
  SpecModel.env cwd manifests engineOk.

Definition world (d : FileData) : World :=
  {| w_files := {[ homePath := d ]}; w_trace := [] |}.

Definition emptyWorld : World := {| w_files := ∅; w_trace := [] |}.

(** Manifests for the planner: a cycle of two and of three services in the
    default mode, a cycle declared under another mode, and a cycle behind a
    dependency. *)
Definition node (name : string) (deps : list (string * string))
  : ServiceConfig :=
  {| Svc_Name := name; Svc_Path := "/ws/" +:+ name;
     Dependencies := map (fun d => {| Dep_Name := d.1; Dep_Mode := d.2 |}) deps |}.

Definition graph (svcs : list ServiceConfig) : MainConfig :=
  {| WorkspacePath := "/ws"; Cwd := "/ws"; Services := svcs; Modules := [] |}.

Definition cycle2 : MainConfig :=
  graph [node "a" [("b", "default")]; node "b" [("a", "default")]].
Definition cycle3 : MainConfig :=
  graph [node "a" [("b", "default")]; node "b" [("c", "default")];
         node "c" [("a", "default")]].
Definition cycleOtherMode : MainConfig :=
  graph [node "a" [("b", "debug")]; node "b" [("a", "debug")]].
Definition cycleBehind : MainConfig :=
  graph [node "a" [("b", "default")]; node "b" [("c", "default")];
         node "c" [("b", "default")]].

Definition noneRunning : string -> bool := fun _ => false.
Definition onlyRunning (name : string) : string -> bool := String.eqb name.

End Scenario.

(** ** commands.go: the other commands

    The methods of [Service] these commands call, [Pc.ExecInteractive] and
    [fmt]'s rendering of a row are outside the embedded files: they are what
    the sections below take as given.  A method of [Service] may do to the
    world whatever it does. *)

Record SvcRestartParams := {
  Hard : bool;
}.

Section WorkspaceCommands.
Context `{Collaborators}.

(** [fmt]'s rendering of ["%-10s %s\n"] for a name and a path. *)
Variable formatRow : string -> string -> string.

(** [Pc.ExecInteractive] *)
Variable ExecInteractive : list string -> list string -> M Z.

(** The loop of [CmdWorkspaceList]. *)
Fixpoint printRows (wss : list HomeConfigItem) : M unit :=
  match wss with
  | [] => ret tt
  | workspace :: rest =>
      Printf (formatRow (Item_Name workspace) (Item_Path workspace)) ;;
      printRows rest
  end.

Definition CmdWorkspaceList (homeConfigPath : string) (args : list string)
  : M unit :=
  if NeedHelp args "workspace list" then ret tt else
  do hc <- checkAndLoadHC homeConfigPath;
  printRows (Workspaces hc).

Definition CmdWorkspaceShow (homeConfigPath : string) (args : list string)
  : M unit :=
  if NeedHelp args "workspace show" then ret tt else
  do hc <- checkAndLoadHC homeConfigPath;
  Printf (CurrentWorkspace hc +:+ nl).

Definition CmdUpdate (homeConfigPath : string) (args : list string) : M unit :=
  if NeedHelp args "update" then ret tt else
  do hc <- checkAndLoadHC homeConfigPath;
  ExecInteractive ["bash"; "-c"; UpdateCommand hc] [] ;;
  ret tt.

End WorkspaceCommands.

Section OtherServiceCommands.
Context `{Collaborators}.

Variable Start : Service -> SvcStartParams -> M unit.
Variable Restart : Service -> SvcRestartParams -> M unit.
Variable DumpVars : Service -> M unit.
Variable Compose : Service -> SvcComposeParams -> M Z.

(** The loop over the names of [start] and [restart]: each service is
    created and the method is called on it; the first error returns. *)
Fixpoint forEachService (cfg : MainConfig) (method : Service -> M unit)
  (svcNames : list string) : M unit :=
  match svcNames with
  | [] => ret tt
  | svcName :: rest =>
      do svc <- lift (CreateFromSvcName cfg svcName);
      method svc ;;
      forEachService cfg method rest
  end.

(** The names given, or the service of the working directory when none is
    given. *)
Definition namedOrHere (cfg : MainConfig) (method : Service -> M unit)
  (svcNames : list string) : M unit :=
  match svcNames with
  | _ :: _ => forEachService cfg method svcNames
  | [] =>
      do svcName <- lift (FindServiceByPath cfg);
      do svc <- lift (CreateFromSvcName cfg svcName);
      method svc ;;
      ret tt
  end.

Definition startParamsOf (fs : FlagSet) : SvcStartParams :=
  {| Mode := flagString "mode" fs; Force := flagBool "force" fs |}.

Definition CmdServiceStart (homeConfigPath : string) (args : list string)
  : M unit :=
  if NeedHelp args "start [OPTIONS] [NAMES...]" then ret tt else
  do parsed <- lift (Parse (addStartFlags []) args);
  let startParams := startParamsOf (fst parsed) in
  do cfg <- getWorkspaceConfig homeConfigPath;
  namedOrHere cfg (fun svc => Start svc startParams) (snd parsed).

Definition CmdServiceRestart (homeConfigPath : string) (args : list string)
  : M unit :=
  if NeedHelp args "restart [OPTIONS] [NAMES...]" then ret tt else
  do parsed <- lift (Parse [("hard", BoolFlag false)] args);
  let restartParams := {| Hard := flagBool "hard" (fst parsed) |} in
  do cfg <- getWorkspaceConfig homeConfigPath;
  namedOrHere cfg (fun svc => Restart svc restartParams) (snd parsed).

Definition CmdServiceVars (homeConfigPath : string) (args : list string)
  : M unit :=
  if NeedHelp args "vars [NAME]" then ret tt else
  do cfg <- getWorkspaceConfig homeConfigPath;
  do svcName <- match args with
                | name :: _ => ret name
                | [] => lift (FindServiceByPath cfg)
                end;
  do svc <- lift (CreateFromSvcName cfg svcName);
  DumpVars svc ;;
  ret tt.

Definition CmdServiceCompose (homeConfigPath : string) (args : list string)
  : M Z :=
  if NeedHelp args "compose [OPTIONS] COMMAND [ARGS]" then ret 0%Z else
  do parsed <- lift (Parse (addComposeFlags []) args);
  let cmd := snd parsed in
  do cfg <- getWorkspaceConfig homeConfigPath;
  do svcName <- (if String.eqb (flagString "svc" (fst parsed)) ""
                 then lift (FindServiceByPath cfg)
                 else ret (flagString "svc" (fst parsed)));
  do svc <- lift (CreateFromSvcName cfg svcName);
  do returnCode <- Compose svc {| SvcName := svcName; Cmd := cmd |};
  ret returnCode.

End OtherServiceCommands.

(** The document at [path] satisfies the invariant of the registry. *)
Definition registryOk (path : string) (w : World) : Prop :=
  exists cur upd wss,
    w_files w !! path = Some (HomeYaml cur upd wss) /\ homeInvariant cur wss.

(** Stand-ins for the methods of [Service], [Pc.ExecInteractive] and [fmt]
    in the scenario: a method prints what it is called with. *)
Module Runs.

Fixpoint blanks (n : nat) : string :=
  match n with
  | O => EmptyString
  | S m => String " "%char (blanks m)
  end.

(** ["%-10s %s\n"]: the name, filled with blanks on the right up to ten
    characters (a name of one-byte characters), a blank, the path. *)
Definition formatRow (name path : string) : string :=
  name +:+ blanks (10 - String.length name) +:+ " " +:+ path +:+ nl.

Definition ExecInteractive (command env : list string) : M Z :=
  fun w => (Ok 0%Z, emit (EvPrint (String.concat " " command)) w).

Definition Start (svc : Service) (params : SvcStartParams) : M unit :=
  fun w => (Ok tt, emit (EvPrint ("start " +:+ Service_Name svc
                                  +:+ " " +:+ Mode params)) w).

Definition DumpVars (svc : Service) : M unit :=
  fun w => (Ok tt, emit (EvPrint ("vars " +:+ Service_Name svc)) w).

(** A registry with a second workspace. *)
Definition sideWs : HomeConfigItem :=
  {| Item_Name := "side"; Item_Path := "/side" |}.

Definition twoWorkspaces : FileData :=
  HomeYaml "main" defaultUpdateCommand [Scenario.mainWs; sideWs].

End Runs.

(** * Properties *)

(** ** The home-config store *)

Section HomeConfigFacts.
Context `{Collaborators}.

Lemma findWorkspace_loop_first name wss :
  match findWorkspace_loop name wss with
  | Some ws => exists pre post,
      wss = pre ++ ws :: post /\ Item_Name ws = name /\
      forall x, x ∈ pre -> Item_Name x <> name
  | None => forall x, x ∈ wss -> Item_Name x <> name
  end.
Proof.
  induction wss as [|w wss IH]; simpl.
  - intros x Hx. inversion Hx.
  - destruct (String.eqb_spec (Item_Name w) name) as [Heq|Hne].
    + exists [], wss. split; [done|]. split; [done|].
      intros x Hx. inversion Hx.
    + destruct (findWorkspace_loop name wss) as [ws|].
      * destruct IH as (pre & post & -> & Hn & Hpre).
        exists (w :: pre), post. split; [done|]. split; [done|].
        intros x Hx. apply elem_of_cons in Hx as [->|Hx]; auto.
      * intros x Hx. apply elem_of_cons in Hx as [->|Hx]; auto.
Qed.

Lemma findWorkspace_loop_at pre ws post :
  (forall x, x ∈ pre -> Item_Name x <> Item_Name ws) ->
  findWorkspace_loop (Item_Name ws) (pre ++ ws :: post) = Some ws.
Proof.
  induction pre as [|p pre IH]; intros Hpre; simpl.
  - by rewrite String.eqb_refl.
  - destruct (String.eqb_spec (Item_Name p) (Item_Name ws)) as [Heq|Hne].
    + exfalso. apply (Hpre p); [left|done].
    + apply IH. intros x Hx. apply Hpre. by right.
Qed.

Lemma GetCurrentWsPath_loop_find current wss :
  GetCurrentWsPath_loop current wss =
  match findWorkspace_loop current wss with
  | Some ws => Ok (Item_Path ws)
  | None => Err "current workspace is bad"
  end.
Proof.
  induction wss as [|w wss IH]; simpl; [done|].
  by destruct (String.eqb (Item_Name w) current).
Qed.

Lemma findWorkspace_registered name wss :
  name ∈ map Item_Name wss -> is_Some (findWorkspace_loop name wss).
Proof.
  intros Hin. pose proof (findWorkspace_loop_first name wss) as Hf.
  destruct (findWorkspace_loop name wss) as [ws|]; [by eexists|].
  apply list_elem_of_fmap in Hin as (x & -> & Hx). by destruct (Hf x Hx).
Qed.

Lemma findWorkspace_fresh name wss :
  name ∉ map Item_Name wss -> findWorkspace_loop name wss = None.
Proof.
  intros Hnin. pose proof (findWorkspace_loop_first name wss) as Hf.
  destruct (findWorkspace_loop name wss) as [ws|]; [|done].
  destruct Hf as (pre & post & -> & Hn & _). exfalso. apply Hnin.
  apply list_elem_of_fmap. exists ws. split; [done|].
  apply elem_of_app. right. left.
Qed.

(** What [checkAndLoadHC] does when the file is there, and when it is not. *)
Lemma checkAndLoadHC_existing path w cur upd wss :
  w_files w !! path = Some (HomeYaml cur upd wss) ->
  checkAndLoadHC path w =
  (Ok {| Home_Path := path; CurrentWorkspace := cur;
         UpdateCommand := upd; Workspaces := wss |}, w).
Proof.
  intros Hf. unfold checkAndLoadHC, CheckHomeConfigIsEmpty, LoadHomeConfig,
    FileExists, ReadFile, bind, ret, lift. rewrite Hf. simpl. by rewrite Hf.
Qed.

Lemma checkAndLoadHC_absent path w :
  w_files w !! path = None ->
  WriteFileErr (w_trace w) path (HomeYaml "" defaultUpdateCommand []) = None ->
  checkAndLoadHC path w =
  (Ok {| Home_Path := path; CurrentWorkspace := "";
         UpdateCommand := defaultUpdateCommand; Workspaces := [] |},
   initialised path w).
Proof.
  intros Hf Hw. unfold checkAndLoadHC, CheckHomeConfigIsEmpty, LoadHomeConfig,
    FileExists, ReadFile, SaveHomeConfig, WriteFile, Marshal, bind, ret, lift.
  rewrite Hf. simpl. rewrite Hw. simpl. by rewrite lookup_insert_eq.
Qed.

(** [workspace add] once the document is loaded. *)
Lemma CmdWorkspaceAdd_loaded path name wsPath w cur upd wss :
  NeedHelp [name; wsPath] "workspace add NAME PATH" = false ->
  w_files w !! path = Some (HomeYaml cur upd wss) ->
  CmdWorkspaceAdd path [name; wsPath] w =
  match findWorkspace_loop name wss with
  | Some _ =>
      (Err ("workspace with name '" +:+ name +:+ "' already exists"), w)
  | None =>
      let item := {| Item_Name := name; Item_Path := wsPath |} in
      let hc := {| Home_Path := path; CurrentWorkspace := cur;
                   UpdateCommand := upd; Workspaces := wss ++ [item] |} in
      (SaveHomeConfig hc ;;
       Printf ("workspace '" +:+ name +:+ "' is added" +:+ nl) ;;
       if String.eqb cur "" then
         SaveHomeConfig (setCurrent hc name) ;;
         Printf ("active workspace changed to '" +:+ name +:+ "'" +:+ nl)
       else ret tt) w
  end.
Proof.
  intros Hhelp Hf. unfold CmdWorkspaceAdd. rewrite Hhelp.
  unfold bind at 1. rewrite (checkAndLoadHC_existing _ _ _ _ _ Hf).
  unfold findWorkspace. simpl.
  by destruct (findWorkspace_loop name wss).
Qed.

End HomeConfigFacts.

Section HomeConfigProperties.
Context `{Collaborators}.

(** C7. [CheckHomeConfigIsEmpty] writes the default document (default update
    command, no workspace, no current workspace) exactly when the file is
    absent: then one write of that document is issued, and the file holds it
    when the write succeeds; when the file exists nothing is written and the
    world is as before. *)
Theorem CheckHomeConfigIsEmpty_writes_iff_absent (path : string) (w : World) :
  (w_files w !! path = None ->
     w_trace (CheckHomeConfigIsEmpty path w).2 =
       w_trace w ++ [EvWriteFile path (HomeYaml "" defaultUpdateCommand [])] /\
     (forall other, other <> path ->
        w_files (CheckHomeConfigIsEmpty path w).2 !! other = w_files w !! other) /\
     ((CheckHomeConfigIsEmpty path w).1 = Ok tt ->
        w_files (CheckHomeConfigIsEmpty path w).2 !! path =
          Some (HomeYaml "" defaultUpdateCommand []))) /\
  (is_Some (w_files w !! path) -> CheckHomeConfigIsEmpty path w = (Ok tt, w)).
Proof.
  unfold CheckHomeConfigIsEmpty, FileExists, SaveHomeConfig, WriteFile, Marshal,
    bind, ret. split.
  - intros Hf. rewrite Hf. simpl.
    destruct (WriteFileErr _ _ _) as [e|]; simpl.
    + split; [done|]. split; [done|]. discriminate.
    + split; [done|]. split.
      * intros other Hne. by rewrite lookup_insert_ne.
      * intros _. by rewrite lookup_insert_eq.
  - intros [d Hf]. rewrite Hf. by simpl.
Qed.

(** C4. When a workspace named [name] is registered, [workspace add name
    path] reports the name collision and the world is exactly as before: no
    file is written, nothing is printed, the document is untouched. *)
Theorem CmdWorkspaceAdd_collision
  (path name wsPath : string) (w : World) (cur upd : string)
  (wss : list HomeConfigItem) :
  NeedHelp [name; wsPath] "workspace add NAME PATH" = false ->
  w_files w !! path = Some (HomeYaml cur upd wss) ->
  registered name wss ->
  CmdWorkspaceAdd path [name; wsPath] w =
    (Err ("workspace with name '" +:+ name +:+ "' already exists"), w).
Proof.
  intros Hhelp Hf Hreg.
  rewrite (CmdWorkspaceAdd_loaded _ _ _ _ _ _ _ Hhelp Hf).
  by destruct (findWorkspace_registered _ _ Hreg) as [ws ->].
Qed.


(** C10. [workspace add] and [workspace select] create the home-config
    document before they count their arguments: run with a wrong number of
    arguments where no document exists, each reports the argument-count
    error and leaves the default document behind. *)
Theorem arg_count_error_after_create (path : string) (args : list string)
  (w : World) :
  w_files w !! path = None ->
  WriteFileErr (w_trace w) path (HomeYaml "" defaultUpdateCommand []) = None ->
  (NeedHelp args "workspace add NAME PATH" = false -> length args <> 2 ->
     CmdWorkspaceAdd path args w =
       (Err "command requires exactly 2 arguments", initialised path w)) /\
  (NeedHelp args "workspace select NAME" = false -> length args <> 1 ->
     CmdWorkspaceSelect path args w =
       (Err "command requires exactly 1 argument", initialised path w)) /\
  w_files (initialised path w) !! path = Some (HomeYaml "" defaultUpdateCommand []).
Proof.
  intros Hf Hw. split; [|split].
  - intros Hhelp Hlen. unfold CmdWorkspaceAdd. rewrite Hhelp.
    unfold bind at 1. rewrite (checkAndLoadHC_absent _ _ Hf Hw).
    by destruct args as [|a [|b [|c rest]]].
  - intros Hhelp Hlen. unfold CmdWorkspaceSelect. rewrite Hhelp.
    unfold bind at 1. rewrite (checkAndLoadHC_absent _ _ Hf Hw).
    by destruct args as [|a [|b rest]].
  - unfold initialised. simpl. by rewrite lookup_insert_eq.
Qed.

(** C9. The store does not enforce unique names.  Whatever follows the
    first entry named [n] in the document (other entries named [n]
    included), [LoadHomeConfig] loads the document as it is, [AddWorkspace]
    appends one more entry named [n] and saves that, and [findWorkspace]
    and [GetCurrentWsPath] resolve [n] to the first entry. *)
Theorem duplicates_resolve_to_first
  (path : string) (w : World) (cur upd : string)
  (pre : list HomeConfigItem) (ws : HomeConfigItem) (post : list HomeConfigItem)
  (newPath : string) :
  (forall x, x ∈ pre -> Item_Name x <> Item_Name ws) ->
  w_files w !! path = Some (HomeYaml cur upd (pre ++ ws :: post)) ->
  let hc := {| Home_Path := path; CurrentWorkspace := cur;
               UpdateCommand := upd; Workspaces := pre ++ ws :: post |} in
  let added := (pre ++ ws :: post)
               ++ [{| Item_Name := Item_Name ws; Item_Path := newPath |}] in
  LoadHomeConfig path w = (Ok hc, w) /\
  Workspaces (AddWorkspace hc (Item_Name ws) newPath).1 = added /\
  w_trace ((AddWorkspace hc (Item_Name ws) newPath).2 w).2 =
    w_trace w ++ [EvWriteFile path (HomeYaml cur upd added)] /\
  findWorkspace hc (Item_Name ws) = Some ws /\
  (cur = Item_Name ws -> cur <> "" -> GetCurrentWsPath hc = Ok (Item_Path ws)).
Proof.
  intros Hpre Hf hc added. split; [|split; [|split; [|split]]].
  - unfold LoadHomeConfig, ReadFile, bind, ret, lift. by rewrite Hf.
  - done.
  - unfold AddWorkspace, SaveHomeConfig, WriteFile, Marshal, emit. simpl.
    by destruct (WriteFileErr _ _ _).
  - unfold findWorkspace. simpl. by apply findWorkspace_loop_at.
  - intros -> Hne. unfold GetCurrentWsPath. simpl.
    destruct (String.eqb_spec (Item_Name ws) "") as [|_]; [done|].
    rewrite GetCurrentWsPath_loop_find. by rewrite findWorkspace_loop_at.
Qed.

End HomeConfigProperties.

(** A command that needs the current workspace stops where
    [GetCurrentWsPath] fails, and changes nothing. *)
Lemma getWorkspaceConfig_no_current `{Collaborators}
  (hc : HomeConfig) (w : World) (e : error) :
  w_files w !! Home_Path hc =
    Some (HomeYaml (CurrentWorkspace hc) (UpdateCommand hc) (Workspaces hc)) ->
  GetCurrentWsPath hc = Err e ->
  getWorkspaceConfig (Home_Path hc) w = (Err e, w).
Proof.
  intros Hw He. unfold getWorkspaceConfig. unfold bind at 1.
  rewrite (checkAndLoadHC_existing _ _ _ _ _ Hw).
  destruct hc as [p cur upd wss]. simpl in *.
  unfold bind at 1, lift. by rewrite He.
Qed.

(** C6. [GetCurrentWsPath] fails with "current workspace is not set"
    exactly when [CurrentWorkspace] is empty, with "current workspace is
    bad" exactly when it is not empty and no workspace bears that name, and
    otherwise returns the path of the first workspace of that name.  The bad
    state is reported, not repaired: a command that needs the path stops
    with that error and leaves the world as it was. *)
Theorem GetCurrentWsPath_cases (hc : HomeConfig) :
  (GetCurrentWsPath hc = Err "current workspace is not set" <->
     CurrentWorkspace hc = "") /\
  (GetCurrentWsPath hc = Err "current workspace is bad" <->
     CurrentWorkspace hc <> "" /\
     forall hci, hci ∈ Workspaces hc -> Item_Name hci <> CurrentWorkspace hc) /\
  (forall p, GetCurrentWsPath hc = Ok p <->
     CurrentWorkspace hc <> "" /\
     exists pre hci post,
       Workspaces hc = pre ++ hci :: post /\
       (forall x, x ∈ pre -> Item_Name x <> CurrentWorkspace hc) /\
       Item_Name hci = CurrentWorkspace hc /\ Item_Path hci = p) /\
  (forall (C : Collaborators) (w : World) (e : error),
     w_files w !! Home_Path hc =
       Some (HomeYaml (CurrentWorkspace hc) (UpdateCommand hc) (Workspaces hc)) ->
     GetCurrentWsPath hc = Err e ->
     getWorkspaceConfig (Home_Path hc) w = (Err e, w)).
Proof.
  assert (forall (C : Collaborators) (w : World) (e : error),
     w_files w !! Home_Path hc =
       Some (HomeYaml (CurrentWorkspace hc) (UpdateCommand hc) (Workspaces hc)) ->
     GetCurrentWsPath hc = Err e ->
     getWorkspaceConfig (Home_Path hc) w = (Err e, w)) as Hcmd
    by (intros; by apply getWorkspaceConfig_no_current).
  revert Hcmd. unfold GetCurrentWsPath.
  pose proof (findWorkspace_loop_first (CurrentWorkspace hc) (Workspaces hc)) as Hf.
  rewrite GetCurrentWsPath_loop_find.
  destruct (String.eqb_spec (CurrentWorkspace hc) "") as [Hcur|Hcur]; intros Hcmd.
  - split; [done|]. split; [split; [done|by intros [? _]]|].
    split; [split; [done|by intros [? _]]|].
    intros C w e Hw He. by apply Hcmd.
  - destruct (findWorkspace_loop _ _) as [ws|] eqn:Hfind.
    + destruct Hf as (pre & post & Hwss & Hname & Hpre).
      split; [split; [done|done]|]. split.
      { split; [done|]. intros [_ Hno]. exfalso. apply (Hno ws); [|done].
        rewrite Hwss. apply elem_of_app. right. left. }
      split.
      { intros p. split.
        - intros [= <-]. split; [done|]. by exists pre, ws, post.
        - intros (_ & pre' & hci & post' & Hwss' & Hpre' & Hn' & <-).
          rewrite Hwss' in Hfind. rewrite <- Hn' in Hfind, Hpre'.
          rewrite findWorkspace_loop_at in Hfind by done. by inversion Hfind. }
      intros C w e Hw He. by apply Hcmd.
    + split; [split; [done|done]|]. split; [done|]. split.
      { intros p. split; [done|].
        intros (_ & pre' & hci & post' & Hwss' & _ & Hn' & _).
        exfalso. apply (Hf hci); [|done].
        rewrite Hwss'. apply elem_of_app. right. left. }
      intros C w e Hw He. by apply Hcmd.
Qed.

(** ** Stop and destroy *)

Section StopDestroy.
Context `{Collaborators}.

Lemma allOk_cons call trace s svcs code :
  SvcCallResult trace s call = Ok code ->
  allOk call (trace ++ [EvSvc s call]) svcs ->
  allOk call trace (s :: svcs).
Proof.
  intros Hs Hrest [|i] s' Hi; simpl in *.
  - inversion Hi; subst. exists code. by rewrite app_nil_r.
  - destruct (Hrest i s' Hi) as [c Hc]. exists c.
    by rewrite <- app_assoc in Hc.
Qed.

Lemma allOk_nil call trace : allOk call trace [].
Proof. intros i s Hi. by destruct i. Qed.

Lemma forEachSvc_step cfg call n names w :
  forEachSvc cfg call (n :: names) w =
  match CreateFromSvcName cfg n with
  | Ok s =>
      match SvcCallResult (w_trace w) s call with
      | Ok _ => forEachSvc cfg call names (emit (EvSvc s call) w)
      | Err e => (Err e, emit (EvSvc s call) w)
      end
  | Err e => (Err e, w)
  end.
Proof.
  simpl. unfold bind, lift, callSvc.
  destruct (CreateFromSvcName cfg n) as [s|e]; [|done].
  by destruct (SvcCallResult (w_trace w) s call).
Qed.

(** The loop of [stop] and [destroy] processes its targets in order and
    stops at the first failure. *)
Lemma forEachSvc_in_order cfg call names w :
  exists svcs,
    InOrder cfg call (w_trace w) names (forEachSvc cfg call names w).1 svcs /\
    (forEachSvc cfg call names w).2 = after w call svcs.
Proof.
  revert w. induction names as [|n names IH]; intros w.
  - exists []. split.
    + apply AllDone; [constructor|apply allOk_nil].
    + unfold after. destruct w. simpl. by rewrite app_nil_r.
  - rewrite forEachSvc_step.
    destruct (CreateFromSvcName cfg n) as [s|e] eqn:Hcreate.
    + destruct (SvcCallResult (w_trace w) s call) as [code|e] eqn:Hcall.
      * destruct (IH (emit (EvSvc s call) w)) as (svcs & Hin & Hw).
        exists (s :: svcs). rewrite Hw. split.
        -- simpl in Hin. inversion Hin as
             [svcs' Hcr Hok | pre n' post svcs' s' e Hnames Hcr Hok Hc He
             | pre n' post svcs' e Hnames Hcr Hok Hc]; subst.
           ++ apply AllDone; [by constructor|by eapply allOk_cons].
           ++ apply (CallFailed _ _ _ _ (n :: pre) n' post (s :: svcs') s' e);
                [done|by constructor|by eapply allOk_cons|done|].
              simpl. by rewrite <- app_assoc in He.
           ++ apply (CreateFailed _ _ _ _ (n :: pre) n' post (s :: svcs) e);
                [done|by constructor|by eapply allOk_cons|done].
        -- unfold after, emit. simpl. by rewrite <- app_assoc.
      * exists [s]. split.
        -- apply (CallFailed _ _ _ _ [] n names [] s e);
             [done|constructor|apply allOk_nil|done|].
           simpl. by rewrite app_nil_r.
        -- done.
    + exists []. split.
      * by apply (CreateFailed _ _ _ _ [] n names [] e);
          [|constructor|apply allOk_nil|].
      * unfold after. destruct w. simpl. by rewrite app_nil_r.
Qed.

(** [stop] and [destroy] once the manifest is loaded and the flags are
    parsed. *)
Lemma stopOrDestroy_loaded usage call path args w cfg w1 fs rest :
  NeedHelp args usage = false ->
  getWorkspaceConfig path w = (Ok cfg, w1) ->
  Parse [("all", BoolFlag false)] args = Ok (fs, rest) ->
  stopOrDestroy usage call path args w =
  match (if flagBool "all" fs then GetAllSvcNames cfg else args) with
  | [] =>
      match FindServiceByPath cfg with
      | Ok n => forEachSvc cfg call [n] w1
      | Err e => (Err e, w1)
      end
  | names => forEachSvc cfg call names w1
  end.
Proof.
  intros Hhelp Hcfg Hparse. unfold stopOrDestroy. rewrite Hhelp.
  unfold bind at 1. rewrite Hcfg. unfold bind at 1, lift. rewrite Hparse.
  simpl fst. destruct (if flagBool "all" fs then _ else _) as [|n names]; [|done].
  unfold bind at 1, lift. destruct (FindServiceByPath cfg) as [n|e]; [|done].
  simpl. unfold bind, lift, ret.
  destruct (CreateFromSvcName cfg n) as [s|e]; [|done].
  by destruct (callSvc s call w1) as [[code|e] w2].
Qed.

Lemma Parse_no_arguments fs : Parse fs [] = Ok (fs, []).
Proof. done. Qed.

(** [stop] and [destroy] on the words they are given, once the manifest is
    loaded and the flags are parsed.  With [--all] the targets are the
    service names of the manifest in declaration order; without it the
    targets are the words of the command line as they stand ([args], not
    [fs.Args()]), in the order given; with no word at all the only target is
    the service found from the working directory.  The targets are processed
    in order and the run stops at the first failure; a call is only ever
    made on a service created from a target's name. *)
Theorem stop_destroy_targets usage call path args w cfg w1 fs rest :
  (forall c, GetAllSvcNames c = SpecModel.allSvcNames c) ->
  (forall c n, FindServiceByPath c = Ok n -> n ∈ SpecModel.allSvcNames c) ->
  NeedHelp args usage = false ->
  getWorkspaceConfig path w = (Ok cfg, w1) ->
  Parse [("all", BoolFlag false)] args = Ok (fs, rest) ->
  let r := stopOrDestroy usage call path args w in
  let processed names :=
    exists svcs, InOrder cfg call (w_trace w1) names r.1 svcs /\
                 r.2 = after w1 call svcs in
  (flagBool "all" fs = true ->
     processed (map Svc_Name (Services cfg)) \/
     (Services cfg = [] /\ r.2 = w1 /\ exists e, r.1 = Err e)) /\
  (flagBool "all" fs = false -> args <> [] -> processed args) /\
  (args = [] ->
     (forall n, FindServiceByPath cfg = Ok n -> processed [n]) /\
     (forall e, FindServiceByPath cfg = Err e -> r = (Err e, w1))).
Proof.
  intros Hall Hfind Hhelp Hcfg Hparse r processed. subst r processed.
  rewrite (stopOrDestroy_loaded _ _ _ _ _ _ _ _ _ Hhelp Hcfg Hparse).
  split; [|split].
  - intros ->. rewrite Hall. unfold SpecModel.allSvcNames.
    destruct (Services cfg) as [|s svcs] eqn:Hsvcs; simpl.
    + right. split; [done|].
      destruct (FindServiceByPath cfg) as [n|e] eqn:Hn.
      * apply Hfind in Hn. unfold SpecModel.allSvcNames in Hn.
        rewrite Hsvcs in Hn. inversion Hn.
      * split; [done|]. by exists e.
    + left. apply (forEachSvc_in_order cfg call (Svc_Name s :: map Svc_Name svcs)).
  - intros -> Hargs. destruct args as [|a args]; [done|].
    apply (forEachSvc_in_order cfg call (a :: args)).
  - intros ->. simpl in Hparse. inversion Hparse; subst. simpl. split.
    + intros n ->. apply (forEachSvc_in_order cfg call [n]).
    + by intros e ->.
Qed.

End StopDestroy.

(** ** Exec *)

Section Exec.
Context `{Collaborators}.

(** [exec] once the flags are parsed and the manifest is loaded. *)
Lemma CmdServiceExec_loaded path args w fs cmd cfg w1 :
  NeedHelp args "[OPTIONS] COMMAND [ARGS]" = false ->
  Parse (addExecFlags (addStartFlags (addComposeFlags []))) args = Ok (fs, cmd) ->
  getWorkspaceConfig path w = (Ok cfg, w1) ->
  CmdServiceExec path args w =
  match resolveExecTarget cfg (flagString "svc" fs) with
  | Err e => (Err e, w1)
  | Ok (mdl, svcName) =>
      match (match mdl with
             | Some m => renderPath cfg (ExecPath m)
             | None => Ok ""
             end) with
      | Err e => (Err e, w1)
      | Ok workingDir =>
          match CreateFromSvcName cfg svcName with
          | Err e => (Err e, w1)
          | Ok svc =>
              callSvc svc (CallExec (execParamsOf fs cmd svcName workingDir)) w1
          end
      end
  end.
Proof.
  intros Hhelp Hparse Hcfg. unfold CmdServiceExec. rewrite Hhelp.
  unfold bind at 1, lift. rewrite Hparse.
  unfold bind at 1. rewrite Hcfg. simpl fst; simpl snd.
  unfold bind at 1, lift.
  destruct (resolveExecTarget cfg (flagString "svc" fs)) as [[mdl svcName]|e];
    [|done].
  simpl fst; simpl snd.
  assert (forall dir,
    (do svc <- lift (CreateFromSvcName cfg svcName);
     do returnCode <- callSvc svc
                        (CallExec (execParamsOf fs cmd svcName dir));
     ret returnCode) w1 =
    match CreateFromSvcName cfg svcName with
    | Err e => (Err e, w1)
    | Ok svc => callSvc svc (CallExec (execParamsOf fs cmd svcName dir)) w1
    end) as Htail.
  { intros dir. unfold bind at 1, lift.
    destruct (CreateFromSvcName cfg svcName) as [svc|e]; [|done].
    unfold bind, ret. by destruct (callSvc svc _ w1) as [[code|e] w2]. }
  destruct mdl as [m|]; unfold bind at 1, lift, ret.
  - destruct (renderPath cfg (ExecPath m)) as [dir|e]; [|done]. apply Htail.
  - apply Htail.
Qed.

(** With [--svc] the resolution never yields a module, whatever the name
    resolves to: the working directory of the call stays empty. *)
Lemma resolveExecTarget_named cfg svcName :
  svcName <> "" ->
  exists target, resolveExecTarget cfg svcName = Ok (None, target).
Proof.
  intros Hne. unfold resolveExecTarget.
  destruct (String.eqb_spec svcName "") as [|_]; [done|].
  destruct (FindModuleByName cfg svcName); by eexists.
Qed.

(** With [--svc] naming a module, the call goes to the hosting service, and
    the working directory passed is empty whatever the module's exec path
    is. *)
Lemma exec_by_name_working_dir path args w fs cmd cfg w1 mdl svc :
  NeedHelp args "[OPTIONS] COMMAND [ARGS]" = false ->
  Parse (addExecFlags (addStartFlags (addComposeFlags []))) args = Ok (fs, cmd) ->
  flagString "svc" fs <> "" ->
  getWorkspaceConfig path w = (Ok cfg, w1) ->
  FindModuleByName cfg (flagString "svc" fs) = Ok mdl ->
  CreateFromSvcName cfg (HostedIn mdl) = Ok svc ->
  CmdServiceExec path args w =
    callSvc svc (CallExec (execParamsOf fs cmd (HostedIn mdl) "")) w1.
Proof.
  intros Hhelp Hparse Hsvc Hcfg Hmdl Hcreate.
  rewrite (CmdServiceExec_loaded _ _ _ _ _ _ _ Hhelp Hparse Hcfg).
  unfold resolveExecTarget.
  destruct (String.eqb_spec (flagString "svc" fs) "") as [|_]; [done|].
  by rewrite Hmdl, Hcreate.
Qed.

(** C2, as the code has it.  Without [--svc], [exec] asks for a module
    first: when the working directory resolves to a module, the call goes to
    the module's hosting service with the module's rendered exec path as
    working directory, whatever [FindServiceByPath] would answer; the
    service found from the working directory is used only when no module
    is found, and then the working directory of the call is empty. *)
Theorem exec_by_path_prefers_module path args w fs cmd cfg w1 :
  NeedHelp args "[OPTIONS] COMMAND [ARGS]" = false ->
  Parse (addExecFlags (addStartFlags (addComposeFlags []))) args = Ok (fs, cmd) ->
  flagString "svc" fs = "" ->
  getWorkspaceConfig path w = (Ok cfg, w1) ->
  (forall mdl dir svc,
     FindModuleByPath cfg = Ok mdl ->
     renderPath cfg (ExecPath mdl) = Ok dir ->
     CreateFromSvcName cfg (HostedIn mdl) = Ok svc ->
     CmdServiceExec path args w =
       callSvc svc (CallExec (execParamsOf fs cmd (HostedIn mdl) dir)) w1) /\
  (forall e name svc,
     FindModuleByPath cfg = Err e ->
     FindServiceByPath cfg = Ok name ->
     CreateFromSvcName cfg name = Ok svc ->
     CmdServiceExec path args w =
       callSvc svc (CallExec (execParamsOf fs cmd name "")) w1).
Proof.
  intros Hhelp Hparse Hsvc Hcfg.
  rewrite (CmdServiceExec_loaded _ _ _ _ _ _ _ Hhelp Hparse Hcfg).
  unfold resolveExecTarget. rewrite Hsvc. simpl. split.
  - intros mdl dir svc -> Hdir Hsvcs. by rewrite Hdir, Hsvcs.
  - intros e name svc -> -> Hsvcs. by rewrite Hsvcs.
Qed.

End Exec.

(** ** The commands in the scenario *)

Lemma scenario_loaded (cwd : string) :
  @getWorkspaceConfig (Scenario.envAt cwd) Scenario.homePath
    (Scenario.world Scenario.home)
  = (Ok (Scenario.cfg cwd), Scenario.world Scenario.home).
Proof. reflexivity. Qed.

(** C1, at the failing input.  [exec --svc=api-cli ls], with the module
    [api-cli] hosted in [api] and its exec path [/app/bin]: the call goes to
    [api], and its working directory is empty, not [/app/bin]. *)
Theorem exec_by_name_drops_exec_path :
  @CmdServiceExec (Scenario.envAt "/tmp") Scenario.homePath
    ["--svc=api-cli"; "ls"] (Scenario.world Scenario.home)
  = (Ok 0%Z,
     after (Scenario.world Scenario.home)
       (CallExec
          {| Exec_Compose := {| SvcName := "api"; Cmd := ["ls"] |};
             Exec_Start := {| Mode := "default"; Force := false |};
             UID := 1000;
             WorkingDir := "" |})
       [Scenario.svc "/tmp" "api"]).
Proof. vm_compute. reflexivity. Qed.

(** In the directory of the module [web-cli], which lies under the root of
    the service [web]: [FindServiceByPath] finds [web], and [exec ls] calls
    [api], the host of the module, with the module's exec path. *)
Lemma exec_by_path_service_not_preferred :
  @FindServiceByPath (Scenario.envAt "/ws/web/cli")
    (Scenario.cfg "/ws/web/cli") = Ok "web" /\
  @CmdServiceExec (Scenario.envAt "/ws/web/cli") Scenario.homePath
    ["ls"] (Scenario.world Scenario.home)
  = (Ok 0%Z,
     after (Scenario.world Scenario.home)
       (CallExec
          {| Exec_Compose := {| SvcName := "api"; Cmd := ["ls"] |};
             Exec_Start := {| Mode := "default"; Force := false |};
             UID := 1000;
             WorkingDir := "/ws/web/cli" |})
       [Scenario.svc "/ws/web/cli" "api"]).
Proof. split; vm_compute; reflexivity. Qed.

(** [exec api-cli -- ls]: the first argument is not a flag, so flag parsing
    stops there; no name is given, the service is found from the working
    directory, and the three words are the command. *)
Example exec_positional_words_are_the_command :
  @CmdServiceExec (Scenario.envAt "/ws/db") Scenario.homePath
    ["api-cli"; "--"; "ls"] (Scenario.world Scenario.home)
  = (Ok 0%Z,
     after (Scenario.world Scenario.home)
       (CallExec
          {| Exec_Compose := {| SvcName := "db"; Cmd := ["api-cli"; "--"; "ls"] |};
             Exec_Start := {| Mode := "default"; Force := false |};
             UID := 1000;
             WorkingDir := "" |})
       [Scenario.svc "/ws/db" "db"]).
Proof. vm_compute. reflexivity. Qed.

(** [stop --all]: every declared service, in declaration order, whatever
    depends on what. *)
Example stop_all_in_declaration_order :
  @CmdServiceStop (Scenario.envAt "/ws/db") Scenario.homePath ["--all"]
    (Scenario.world Scenario.home)
  = (Ok tt,
     after (Scenario.world Scenario.home) CallStop
       (map (Scenario.svc "/ws/db") ["web"; "worker"; "db"; "api"])).
Proof. vm_compute. reflexivity. Qed.

(** [stop] with no argument in a directory of [web]: only [web] is stopped,
    not the services it depends on. *)
Example stop_here_only :
  @CmdServiceStop (Scenario.envAt "/ws/web/src") Scenario.homePath []
    (Scenario.world Scenario.home)
  = (Ok tt,
     after (Scenario.world Scenario.home) CallStop
       [Scenario.svc "/ws/web/src" "web"]).
Proof. vm_compute. reflexivity. Qed.

(** C3, where the code departs from it.  [stop] and [destroy] parse their
    flags but then take the words of the command line as they stand
    ([svcNames = args]) where [start] and [restart] take [fs.Args()], so a
    word that the flag parser consumes is handled as a service name.  In
    the workspace of the scenario, from the directory of [db]:
    - for [stop -- web] the parser leaves the one name [web], yet the first
      target is [--]; no such service is declared, the run ends there and
      [web] is never stopped;
    - [destroy --all=false web] likewise ends at [--all=false] and [web] is
      never destroyed;
    - [stop --] names no service and does not ask for all of them, yet the
      service of the working directory, [db], is not stopped: the only
      target is [--];
    - [destroy --all web], by contrast, is read as the claim has it: every
      declared service in declaration order. *)
Theorem stop_destroy_flag_words_are_targets :
  let env := Scenario.envAt "/ws/db" in
  let w := Scenario.world Scenario.home in
  @Parse env [("all", BoolFlag false)] ["--"; "web"]
    = Ok ([("all", BoolFlag false)], ["web"]) /\
  @CmdServiceStop env Scenario.homePath ["--"; "web"] w
    = (Err "service '--' is not found", w) /\
  @Parse env [("all", BoolFlag false)] ["--all=false"; "web"]
    = Ok ([("all", BoolFlag false)], ["web"]) /\
  @CmdServiceDestroy env Scenario.homePath ["--all=false"; "web"] w
    = (Err "service '--all=false' is not found", w) /\
  @Parse env [("all", BoolFlag false)] ["--"]
    = Ok ([("all", BoolFlag false)], []) /\
  @FindServiceByPath env (Scenario.cfg "/ws/db") = Ok "db" /\
  @CmdServiceStop env Scenario.homePath ["--"] w
    = (Err "service '--' is not found", w) /\
  @CmdServiceDestroy env Scenario.homePath ["--all"; "web"] w
    = (Ok tt,
       after w CallDestroy
         (map (Scenario.svc "/ws/db") ["web"; "worker"; "db"; "api"])).
Proof. vm_compute. repeat split; reflexivity. Qed.

(** ** The dependency planner *)

Module PlannerFacts.
Import Planner.

Section Facts.
Variable cfg : MainConfig.
Variable mode : string.
Variable force : bool.
Variable isRunning : string -> bool.

Local Abbreviation visit := (visit cfg mode force isRunning).
Local Abbreviation plan := (plan cfg mode force isRunning).
Local Abbreviation findService := (findService cfg).
Local Abbreviation deps := (deps mode).
Local Abbreviation skipped := (skipped force isRunning).
Local Abbreviation edge := (edge cfg mode).
Local Abbreviation follows := (follows cfg mode force isRunning).
Local Abbreviation walk := (walk cfg mode force isRunning).
Local Abbreviation reaches := (reaches cfg mode force isRunning).
Local Abbreviation onCycle := (onCycle cfg mode force isRunning).
Local Abbreviation chain := (chain cfg mode).
Local Abbreviation namesCycle := (namesCycle cfg mode).
Local Abbreviation isDeclared := (isDeclared cfg).
Local Abbreviation depsDeclared := (depsDeclared cfg).
Local Abbreviation Closed := (Closed cfg mode force isRunning).
Local Abbreviation Acyclic := (Acyclic cfg mode force isRunning).
Local Abbreviation keeps := (keeps cfg mode force isRunning).

Lemma onList_elem name l : onList name l = true <-> name ∈ l.
Proof.
  unfold onList. rewrite existsb_exists. split.
  - intros (x & Hin & Heq). apply String.eqb_eq in Heq as ->.
    by apply list_elem_of_In.
  - intros Hin. exists name. split; [by apply list_elem_of_In|].
    apply String.eqb_refl.
Qed.

Lemma onList_not_elem name l : onList name l = false <-> name ∉ l.
Proof.
  rewrite <- onList_elem. by destruct (onList name l).
Qed.

Lemma findService_Some name svc :
  findService name = Some svc -> svc ∈ Services cfg /\ Svc_Name svc = name.
Proof.
  intros Hf. apply find_some in Hf as [Hin Heq].
  split; [by apply list_elem_of_In|by apply String.eqb_eq].
Qed.

Lemma findService_declared name svc :
  findService name = Some svc -> isDeclared name.
Proof.
  intros Hf. apply findService_Some in Hf as [Hin <-].
  apply list_elem_of_fmap. by exists svc.
Qed.

Lemma declared_findService name :
  isDeclared name -> exists svc, findService name = Some svc.
Proof.
  intros Hd. apply list_elem_of_fmap in Hd as (svc & -> & Hin).
  destruct (findService (Svc_Name svc)) as [s|] eqn:Hf; [by exists s|].
  exfalso. eapply find_none in Hf; [|by apply list_elem_of_In].
  simpl in Hf. by rewrite String.eqb_refl in Hf.
Qed.

Lemma deps_declared svc d :
  depsDeclared -> svc ∈ Services cfg -> d ∈ deps svc -> isDeclared d.
Proof.
  intros Hwf Hsvc Hd. apply list_elem_of_fmap in Hd as (dep & -> & Hdep).
  apply list_elem_of_In, filter_In in Hdep as [Hdep _].
  apply (Hwf svc dep); [done|by apply list_elem_of_In].
Qed.

(** *** The fuel is enough *)

Lemma visitAll_some step ds :
  (forall order d, step order d <> None) ->
  forall order, visitAll step ds order <> None.
Proof.
  intros Hstep. induction ds as [|d ds IH]; intros order; simpl; [done|].
  specialize (Hstep order d).
  destruct (step order d) as [[order'| |]|]; [apply IH|done|done|done].
Qed.

Lemma visit_fuel fuel :
  forall path order name,
    NoDup path -> (forall p, p ∈ path -> isDeclared p) ->
    length (Services cfg) < fuel + length path ->
    visit fuel path order name <> None.
Proof.
  induction fuel as [|fuel IH]; intros path order name Hnd Hdecl Hlen.
  - exfalso. simpl in Hlen.
    assert (path ⊆+ map Svc_Name (Services cfg)) as Hsub
      by by apply NoDup_submseteq.
    apply submseteq_length in Hsub. rewrite length_map in Hsub. lia.
  - simpl.
    destruct (onList name path) eqn:Hpath; [done|].
    destruct (onList name order || skipped name); [done|].
    destruct (findService name) as [svc|] eqn:Hfind; [|done].
    assert (visitAll (visit fuel (path ++ [name])) (deps svc) order <> None)
      as Hall.
    { apply visitAll_some. intros order' d. apply IH.
      - apply NoDup_app. split; [done|]. split; [|apply NoDup_singleton].
        intros x Hx Hx'. apply list_elem_of_singleton in Hx' as ->.
        by apply onList_not_elem in Hpath.
      - intros p Hp. apply elem_of_app in Hp as [Hp|Hp]; [by apply Hdecl|].
        apply list_elem_of_singleton in Hp as ->.
        by eapply findService_declared.
      - rewrite length_app. simpl. lia. }
    by destruct (visitAll _ _ _) as [[order'| |]|].
Qed.

(** The planner always answers. *)
Lemma plan_terminates target : plan target <> None.
Proof.
  apply visit_fuel; [constructor|by intros p Hp; inversion Hp|simpl; lia].
Qed.

(** *** A plan is only emitted when no cycle is reached *)

Lemma walk_closed order a mid c :
  Closed order -> a ∈ order -> walk a mid c -> c ∈ order.
Proof.
  intros Hcl Ha Hw. induction Hw as [a b Hf|a b mid c Hf Hw IH].
  - by apply (Hcl a b).
  - apply IH. by apply (Hcl a b).
Qed.

Lemma walk_declared a mid c : walk a mid c -> isDeclared a.
Proof.
  intros Hw. destruct Hw as [a b [(svc & Hf & _) _]|a b mid c [(svc & Hf & _) _] _];
    by eapply findService_declared.
Qed.

Lemma visitAll_planned step ds :
  (forall order d order',
     Closed order -> Acyclic order -> step order d = Some (Planned order') ->
     keeps order order' /\ (skipped d = false -> d ∈ order')) ->
  forall order order',
    Closed order -> Acyclic order ->
    visitAll step ds order = Some (Planned order') ->
    keeps order order' /\
    (forall d, d ∈ ds -> skipped d = false -> d ∈ order').
Proof.
  intros Hstep. induction ds as [|d ds IH]; intros order order' Hcl Hac; simpl.
  - intros [= <-]. split; [by split|]. intros d Hd. inversion Hd.
  - destruct (step order d) as [[order1| |]|] eqn:Hd; try done.
    intros Hrest.
    destruct (Hstep _ _ _ Hcl Hac Hd) as [(Hsub1 & Hcl1 & Hac1) Hin1].
    destruct (IH _ _ Hcl1 Hac1 Hrest) as [(Hsub2 & Hcl2 & Hac2) Hin2].
    split; [split; [|done]|].
    + intros x Hx. by apply Hsub2, Hsub1.
    + intros d' Hd' Hsk. apply elem_of_cons in Hd' as [->|Hd'].
      * by apply Hsub2, Hin1.
      * by apply Hin2.
Qed.

Lemma visit_planned fuel :
  forall path order name order',
    Closed order -> Acyclic order ->
    visit fuel path order name = Some (Planned order') ->
    keeps order order' /\ (skipped name = false -> name ∈ order').
Proof.
  induction fuel as [|fuel IH]; intros path order name order' Hcl Hac; [done|].
  simpl.
  destruct (onList name path) eqn:Hpath; [done|].
  destruct (onList name order) eqn:Horder; simpl.
  { intros [= <-]. split; [by split|]. intros _. by apply onList_elem. }
  destruct (skipped name) eqn:Hsk.
  { intros [= <-]. split; [by split|]. done. }
  destruct (findService name) as [svc|] eqn:Hfind; [|done].
  destruct (visitAll _ _ _) as [[order1| |]|] eqn:Hall; try done.
  intros [= <-].
  destruct (visitAll_planned _ _ (fun o d o' => IH (path ++ [name]) o d o')
              _ _ Hcl Hac Hall) as [(Hsub & Hcl1 & Hac1) Hdeps].
  assert (forall b, follows name b -> b ∈ order1) as Hnext.
  { intros b [(svc' & Hf' & Hb) Hskb]. rewrite Hfind in Hf'.
    inversion Hf'; subst. by apply Hdeps. }
  split; [split; [|split]|].
  - intros x Hx. apply elem_of_app. left. by apply Hsub.
  - intros a b Ha Hab. apply elem_of_app. left.
    apply elem_of_app in Ha as [Ha|Ha].
    + by apply (Hcl1 a b).
    + apply list_elem_of_singleton in Ha as ->. by apply Hnext.
  - intros a Ha Hcyc. apply elem_of_app in Ha as [Ha|Ha].
    + by apply (Hac1 a).
    + apply list_elem_of_singleton in Ha as ->.
      destruct Hcyc as [mid Hw].
      assert (name ∈ order1) as Hin.
      { inversion Hw as [a b Hf|a b mid' c Hf Hw']; subst.
        - by apply Hnext.
        - eapply walk_closed; [done| |done]. by apply Hnext. }
      apply (Hac1 name Hin). by exists mid.
  - intros _. apply elem_of_app. right. by apply list_elem_of_singleton.
Qed.

(** *** No service is missing in a manifest that declares its dependencies *)

Lemma visitAll_found step ds x :
  (forall order d, d ∈ ds -> step order d <> Some (NotFoundError x)) ->
  forall order, visitAll step ds order <> Some (NotFoundError x).
Proof.
  induction ds as [|d ds IH]; intros Hstep order; simpl; [done|].
  pose proof (Hstep order d ltac:(left)) as Hd.
  destruct (step order d) as [[order'| |]|]; try done.
  apply IH. intros o d' Hd'. apply Hstep. by right.
Qed.

Lemma visit_found fuel x :
  depsDeclared ->
  forall path order name,
    isDeclared name -> visit fuel path order name <> Some (NotFoundError x).
Proof.
  intros Hwf. induction fuel as [|fuel IH]; intros path order name Hdecl;
    [done|]. simpl.
  destruct (onList name path); [done|].
  destruct (onList name order || skipped name); [done|].
  destruct (declared_findService _ Hdecl) as [svc Hfind]. rewrite Hfind.
  assert (visitAll (visit fuel (path ++ [name])) (deps svc) order
          <> Some (NotFoundError x)) as Hall.
  { apply visitAll_found. intros o d Hd. apply IH.
    apply findService_Some in Hfind as [Hsvc _]. by eapply deps_declared. }
  by destruct (visitAll _ _ _) as [[order'| |]|].
Qed.

(** *** The error names a cycle *)

Lemma chain_app_r l1 l2 : chain (l1 ++ l2) -> chain l2.
Proof.
  induction l1 as [|a l1 IH]; [done|]. simpl.
  destruct (l1 ++ l2) as [|b rest] eqn:Heq.
  - intros _. destruct l1; [|done]. simpl in Heq. by subst.
  - intros [_ Hc]. by apply IH.
Qed.

Lemma chain_snoc l a b : chain (l ++ [a]) -> edge a b -> chain ((l ++ [a]) ++ [b]).
Proof.
  intros Hc He. induction l as [|x l IH]; simpl in *; [done|].
  destruct (l ++ [a]) as [|y rest] eqn:Heq; [by destruct l|].
  simpl. destruct Hc as [Hxy Hc]. split; [done|]. by apply IH.
Qed.

Lemma cycleFrom_first name path :
  name ∈ path ->
  exists pre rest, path = pre ++ name :: rest /\ cycleFrom name path = name :: rest.
Proof.
  induction path as [|p path IH]; intros Hin; [inversion Hin|]. simpl.
  destruct (String.eqb_spec p name) as [->|Hne].
  - by exists [], path.
  - apply elem_of_cons in Hin as [->|Hin]; [done|].
    destruct (IH Hin) as (pre & rest & -> & Hc).
    by exists (p :: pre), rest.
Qed.

Lemma visitAll_cycle step ds c (P : list string -> Prop) :
  (forall order d, d ∈ ds -> step order d = Some (CyclicDependencyError c) -> P c) ->
  forall order, visitAll step ds order = Some (CyclicDependencyError c) -> P c.
Proof.
  induction ds as [|d ds IH]; intros Hstep order; simpl; [done|].
  destruct (step order d) as [[order'| |]|] eqn:Hd; try done.
  - apply IH. intros o d' Hd'. apply Hstep. by right.
  - intros [= <-]. eapply Hstep; [left|done].
Qed.

Lemma visit_cycle fuel c :
  forall path order name,
    chain (path ++ [name]) ->
    visit fuel path order name = Some (CyclicDependencyError c) ->
    namesCycle c.
Proof.
  induction fuel as [|fuel IH]; intros path order name Hchain; [done|]. simpl.
  destruct (onList name path) eqn:Hpath.
  { intros [= <-]. apply onList_elem in Hpath.
    destruct (cycleFrom_first _ _ Hpath) as (pre & rest & Hp & ->).
    exists name, rest. split; [done|].
    rewrite Hp, <- app_assoc in Hchain. by apply chain_app_r in Hchain. }
  destruct (onList name order || skipped name); [done|].
  destruct (findService name) as [svc|] eqn:Hfind; [|done].
  destruct (visitAll _ _ _) as [[order'| |]|] eqn:Hall; try done.
  intros [= <-]. revert Hall. apply visitAll_cycle.
  intros o d Hd. apply IH. apply chain_snoc; [done|]. by exists svc.
Qed.

(** C8, as the planner of the specification has it.  The planner answers
    for every target, in every manifest: it never runs forever.  In a
    manifest whose dependencies all name declared services, for a target
    that is not skipped: when a cycle is reached from the target along the
    edges the traversal follows (dependencies of the requested mode, into
    services that are not skipped as already running), the answer is a
    [CyclicDependencyError] that names a cycle; no plan is emitted. *)
Theorem plan_fails_on_cycle (target : string) :
  plan target <> None /\
  (forall c,
     depsDeclared ->
     skipped target = false ->
     reaches target c ->
     onCycle c ->
     exists cycle,
       plan target = Some (CyclicDependencyError cycle) /\ namesCycle cycle).
Proof.
  split; [apply plan_terminates|].
  intros c Hwf Hsk Hreach Hcyc.
  pose proof (plan_terminates target) as Hterm.
  destruct (plan target) as [[order|cycle|x]|] eqn:Hplan; [| | |done].
  - exfalso. unfold Planner.plan in Hplan.
    assert (Closed []) as Hcl0 by (intros a b Ha; inversion Ha).
    assert (Acyclic []) as Hac0 by (intros a Ha; inversion Ha).
    destruct (visit_planned _ _ _ _ _ Hcl0 Hac0 Hplan)
      as [(_ & Hcl & Hac) Hin].
    apply (Hac c); [|done].
    destruct Hreach as [<-|[mid Hw]]; [by apply Hin|].
    eapply walk_closed; [done| |done]. by apply Hin.
  - exists cycle. split; [done|].
    unfold Planner.plan in Hplan. by eapply (visit_cycle _ _ [] [] target).
  - exfalso. unfold Planner.plan in Hplan.
    eapply visit_found; [done| |done].
    destruct Hreach as [<-|[mid Hw]].
    + destruct Hcyc as [mid Hw]. by eapply walk_declared.
    + by eapply walk_declared.
Qed.

End Facts.
End PlannerFacts.

(** ** The scenario satisfies what the properties ask of the surroundings *)

Lemma resolveByPath_elem {A} (path : A -> string) cwd (l : list A) x :
  SpecModel.resolveByPath path cwd l = Ok x -> x ∈ l.
Proof.
  unfold SpecModel.resolveByPath.
  destruct (List.filter _ (List.filter _ l)) as [|y [|z rest]] eqn:Hf; try done.
  intros [= <-]. assert (In y (List.filter
    (fun x => Nat.eqb (String.length (path x))
       (SpecModel.longest path
          (List.filter (fun x => SpecModel.isAncestorOrEqual (path x) cwd) l)))
    (List.filter (fun x => SpecModel.isAncestorOrEqual (path x) cwd) l))) as Hin
    by (rewrite Hf; by left).
  apply filter_In in Hin as [Hin _]. apply filter_In in Hin as [Hin _].
  by apply list_elem_of_In.
Qed.

Lemma findServiceByPath_declared cfg n :
  SpecModel.findServiceByPath cfg = Ok n -> n ∈ SpecModel.allSvcNames cfg.
Proof.
  unfold SpecModel.findServiceByPath, SpecModel.allSvcNames.
  destruct (SpecModel.resolveByPath _ _ _) as [svc|e] eqn:Hr; [|done].
  intros [= <-]. apply list_elem_of_fmap. exists svc. split; [done|].
  by eapply resolveByPath_elem.
Qed.

(** ** Instances *)

(** [stop web worker db] where the call on [worker] fails: [web] and
    [worker] are called, in that order, and [db] is not. *)
Lemma stop_destroy_targets_witness :
  exists svcs,
    @InOrder (SpecModel.env "/ws/db" Scenario.manifests Scenario.engineWorkerDown)
      (Scenario.cfg "/ws/db") CallStop [] ["web"; "worker"; "db"]
      (@CmdServiceStop
         (SpecModel.env "/ws/db" Scenario.manifests Scenario.engineWorkerDown)
         Scenario.homePath ["web"; "worker"; "db"]
         (Scenario.world Scenario.home)).1 svcs /\
    (@CmdServiceStop
       (SpecModel.env "/ws/db" Scenario.manifests Scenario.engineWorkerDown)
       Scenario.homePath ["web"; "worker"; "db"]
       (Scenario.world Scenario.home)).2
    = after (Scenario.world Scenario.home) CallStop svcs.
Proof.
  apply (proj1 (proj2
    (@stop_destroy_targets
       (SpecModel.env "/ws/db" Scenario.manifests Scenario.engineWorkerDown)
       "stop [NAMES...]" CallStop Scenario.homePath ["web"; "worker"; "db"]
       (Scenario.world Scenario.home) (Scenario.cfg "/ws/db")
       (Scenario.world Scenario.home)
       [("all", BoolFlag false)] ["web"; "worker"; "db"]
       (fun c => eq_refl) findServiceByPath_declared eq_refl eq_refl eq_refl))).
  - reflexivity.
  - discriminate.
Defined.

(** [workspace add main /elsewhere] where [main] is registered. *)
Lemma CmdWorkspaceAdd_collision_witness :
  @CmdWorkspaceAdd (Scenario.envAt "/") Scenario.homePath
    ["main"; "/elsewhere"] (Scenario.world Scenario.home)
  = (Err ("workspace with name '" +:+ "main" +:+ "' already exists"),
     Scenario.world Scenario.home).
Proof.
  apply (@CmdWorkspaceAdd_collision (Scenario.envAt "/") Scenario.homePath
           "main" "/elsewhere" (Scenario.world Scenario.home)
           "main" defaultUpdateCommand [Scenario.mainWs]).
  - reflexivity.
  - reflexivity.
  - unfold registered. simpl. left.
Defined.


(** A wrong number of arguments where no document exists. *)
Lemma arg_count_error_after_create_witness :
  @CmdWorkspaceAdd (Scenario.envAt "/") Scenario.homePath ["main"]
    Scenario.emptyWorld
  = (Err "command requires exactly 2 arguments",
     initialised Scenario.homePath Scenario.emptyWorld).
Proof.
  apply (proj1
    (@arg_count_error_after_create (Scenario.envAt "/") Scenario.homePath
       ["main"] Scenario.emptyWorld eq_refl eq_refl)).
  - reflexivity.
  - simpl. lia.
Defined.

(** Two workspaces named [main]: the first one is found. *)
Lemma duplicates_resolve_to_first_witness :
  findWorkspace
    {| Home_Path := Scenario.homePath; CurrentWorkspace := "main";
       UpdateCommand := defaultUpdateCommand;
       Workspaces := [] ++ Scenario.mainWs ::
                     [{| Item_Name := "main"; Item_Path := "/other" |}] |}
    "main" = Some Scenario.mainWs.
Proof.
  apply (@duplicates_resolve_to_first (Scenario.envAt "/") Scenario.homePath
           (Scenario.world
              (HomeYaml "main" defaultUpdateCommand
                 [Scenario.mainWs;
                  {| Item_Name := "main"; Item_Path := "/other" |}]))
           "main" defaultUpdateCommand
           [] Scenario.mainWs
           [{| Item_Name := "main"; Item_Path := "/other" |}] "/third").
  - intros x Hx. inversion Hx.
  - reflexivity.
Defined.

(** [exec ls] in the directory of the module [web-cli]. *)
Lemma exec_by_path_prefers_module_witness :
  @CmdServiceExec (Scenario.envAt "/ws/web/cli") Scenario.homePath ["ls"]
    (Scenario.world Scenario.home)
  = @callSvc (Scenario.envAt "/ws/web/cli") (Scenario.svc "/ws/web/cli" "api")
      (CallExec
         (@execParamsOf
            (@addExecFlags (Scenario.envAt "/ws/web/cli")
               (addStartFlags (addComposeFlags [])))
            ["ls"] "api" "/ws/web/cli"))
      (Scenario.world Scenario.home).
Proof.
  apply (proj1
    (@exec_by_path_prefers_module (Scenario.envAt "/ws/web/cli")
       Scenario.homePath ["ls"] (Scenario.world Scenario.home)
       (@addExecFlags (Scenario.envAt "/ws/web/cli")
          (addStartFlags (addComposeFlags [])))
       ["ls"] (Scenario.cfg "/ws/web/cli") (Scenario.world Scenario.home)
       eq_refl eq_refl eq_refl eq_refl) Scenario.web_cli).
  - reflexivity.
  - reflexivity.
  - reflexivity.
Defined.

(** A current workspace that is not registered. *)
Lemma GetCurrentWsPath_cases_witness :
  GetCurrentWsPath
    {| Home_Path := Scenario.homePath; CurrentWorkspace := "gone";
       UpdateCommand := defaultUpdateCommand;
       Workspaces := [Scenario.mainWs] |}
  = Err "current workspace is bad".
Proof.
  apply (proj2 (proj1 (proj2 (GetCurrentWsPath_cases _)))). simpl. split.
  - discriminate.
  - intros hci Hin. apply list_elem_of_singleton in Hin as ->. discriminate.
Defined.

(** No document: the default one is written. *)
Lemma CheckHomeConfigIsEmpty_writes_iff_absent_witness :
  w_trace (@CheckHomeConfigIsEmpty (Scenario.envAt "/") Scenario.homePath
             Scenario.emptyWorld).2
  = w_trace Scenario.emptyWorld ++
    [EvWriteFile Scenario.homePath (HomeYaml "" defaultUpdateCommand [])].
Proof.
  apply (proj1 (@CheckHomeConfigIsEmpty_writes_iff_absent (Scenario.envAt "/")
                  Scenario.homePath Scenario.emptyWorld)).
  reflexivity.
Defined.

(** ** The planner on the scenario graphs *)

(** A cycle of two and a cycle of three services in the requested mode. *)
Example plan_cycle2 :
  Planner.plan Scenario.cycle2 "default" false Scenario.noneRunning "a"
  = Some (Planner.CyclicDependencyError ["a"; "b"; "a"]).
Proof. vm_compute. reflexivity. Qed.

Example plan_cycle3 :
  Planner.plan Scenario.cycle3 "default" false Scenario.noneRunning "a"
  = Some (Planner.CyclicDependencyError ["a"; "b"; "c"; "a"]).
Proof. vm_compute. reflexivity. Qed.

(** Dependencies first: [web] needs [db] and [worker], [worker] needs
    [db]. *)
Example plan_web :
  Planner.plan (Scenario.cfg "/ws") "default" false Scenario.noneRunning "web"
  = Some (Planner.Planned ["db"; "worker"; "web"]).
Proof. vm_compute. reflexivity. Qed.

(** Two graphs with a cycle that is reachable from the target [a] and for
    which a plan is emitted: [a] and [b] depend on each other under the mode
    [debug] and the plan is made for the mode [default]; [b] and [c] depend
    on each other behind [a], and [b] is running while force is not set. *)
Lemma plan_emitted_despite_cycle :
  (Planner.declaresDep Scenario.cycleOtherMode "a" "b" = true /\
   Planner.declaresDep Scenario.cycleOtherMode "b" "a" = true /\
   Planner.plan Scenario.cycleOtherMode "default" false Scenario.noneRunning "a"
   = Some (Planner.Planned ["a"])) /\
  (Planner.declaresDep Scenario.cycleBehind "a" "b" = true /\
   Planner.declaresDep Scenario.cycleBehind "b" "c" = true /\
   Planner.declaresDep Scenario.cycleBehind "c" "b" = true /\
   Planner.plan Scenario.cycleBehind "default" false (Scenario.onlyRunning "b") "a"
   = Some (Planner.Planned ["a"])).
Proof. repeat split; vm_compute; reflexivity. Qed.

Lemma cycle2_depsDeclared : Planner.depsDeclared Scenario.cycle2.
Proof.
  intros svc d Hs Hd. unfold Planner.isDeclared. simpl in *.
  repeat (apply elem_of_cons in Hs as [->|Hs]); [| |inversion Hs]; simpl in Hd;
    apply list_elem_of_singleton in Hd as ->; simpl.
  - right. left.
  - left.
Qed.

Lemma cycle2_follows_a_b :
  Planner.follows Scenario.cycle2 "default" false Scenario.noneRunning "a" "b".
Proof.
  split; [|reflexivity].
  exists (Scenario.node "a" [("b", "default")]). split; [reflexivity|]. left.
Qed.

Lemma cycle2_follows_b_a :
  Planner.follows Scenario.cycle2 "default" false Scenario.noneRunning "b" "a".
Proof.
  split; [|reflexivity].
  exists (Scenario.node "b" [("a", "default")]). split; [reflexivity|]. left.
Qed.

(** The cycle of two services. *)
Lemma plan_fails_on_cycle_witness :
  exists cycle,
    Planner.plan Scenario.cycle2 "default" false Scenario.noneRunning "a"
    = Some (Planner.CyclicDependencyError cycle) /\
    Planner.namesCycle Scenario.cycle2 "default" cycle.
Proof.
  apply (proj2 (PlannerFacts.plan_fails_on_cycle Scenario.cycle2 "default"
                  false Scenario.noneRunning "a") "a").
  - exact cycle2_depsDeclared.
  - reflexivity.
  - left. reflexivity.
  - exists ["b"]. apply Planner.walk_step.
    + exact cycle2_follows_a_b.
    + apply Planner.walk_one. exact cycle2_follows_b_a.
Defined.

(** ** More on the workspace registry *)

Section RegistryFacts.
Context `{Collaborators}.

Lemma findWorkspace_loop_app name wss more :
  findWorkspace_loop name (wss ++ more) =
  match findWorkspace_loop name wss with
  | Some ws => Some ws
  | None => findWorkspace_loop name more
  end.
Proof.
  induction wss as [|w wss IH]; simpl; [done|].
  by destruct (String.eqb (Item_Name w) name).
Qed.

Lemma findWorkspace_loop_registered name wss ws :
  findWorkspace_loop name wss = Some ws -> registered name wss.
Proof.
  intros Hf. pose proof (findWorkspace_loop_first name wss) as Hfirst.
  rewrite Hf in Hfirst. destruct Hfirst as (pre & post & -> & <- & _).
  unfold registered. apply list_elem_of_fmap. exists ws. split; [done|].
  apply elem_of_app. right. left.
Qed.

Lemma registered_app name wss more :
  registered name wss -> registered name (wss ++ more).
Proof.
  unfold registered. rewrite map_app. intros Hin. apply elem_of_app. by left.
Qed.

(** [workspace select] once the document is loaded. *)
Lemma CmdWorkspaceSelect_loaded path name w cur upd wss :
  NeedHelp [name] "workspace select NAME" = false ->
  w_files w !! path = Some (HomeYaml cur upd wss) ->
  CmdWorkspaceSelect path [name] w =
  match findWorkspace_loop name wss with
  | None =>
      (Err ("workspace with name '" +:+ name +:+ "' is not defined"), w)
  | Some _ =>
      (SaveHomeConfig {| Home_Path := path; CurrentWorkspace := name;
                         UpdateCommand := upd; Workspaces := wss |} ;;
       Printf ("active workspace changed to '" +:+ name +:+ "'" +:+ nl)) w
  end.
Proof.
  intros Hhelp Hf. unfold CmdWorkspaceSelect. rewrite Hhelp.
  unfold bind at 1. rewrite (checkAndLoadHC_existing _ _ _ _ _ Hf).
  unfold findWorkspace. simpl.
  by destruct (findWorkspace_loop name wss).
Qed.

(** X1. [workspace select] of a registered name writes the document once,
    with that name as the current workspace and the update command and the
    workspaces as they were, and then prints the change. *)
Theorem CmdWorkspaceSelect_registered path name w cur upd wss :
  NeedHelp [name] "workspace select NAME" = false ->
  w_files w !! path = Some (HomeYaml cur upd wss) ->
  registered name wss ->
  WriteFileErr (w_trace w) path (HomeYaml name upd wss) = None ->
  CmdWorkspaceSelect path [name] w =
    (Ok tt,
     {| w_files := <[path := HomeYaml name upd wss]> (w_files w);
        w_trace := w_trace w ++
          [EvWriteFile path (HomeYaml name upd wss);
           EvPrint ("active workspace changed to '" +:+ name +:+ "'" +:+ nl)] |}).
Proof.
  intros Hhelp Hf Hreg Hw.
  rewrite (CmdWorkspaceSelect_loaded _ _ _ _ _ _ Hhelp Hf).
  destruct (findWorkspace_registered _ _ Hreg) as [ws ->].
  unfold bind, SaveHomeConfig, WriteFile, Printf, Marshal, emit. simpl.
  rewrite Hw. simpl. by rewrite <- app_assoc.
Qed.

(** X2. [workspace select] of a name that is not registered reports that the
    workspace is not defined; nothing is written or printed. *)
Theorem CmdWorkspaceSelect_unknown path name w cur upd wss :
  NeedHelp [name] "workspace select NAME" = false ->
  w_files w !! path = Some (HomeYaml cur upd wss) ->
  ~ registered name wss ->
  CmdWorkspaceSelect path [name] w =
    (Err ("workspace with name '" +:+ name +:+ "' is not defined"), w).
Proof.
  intros Hhelp Hf Hreg.
  rewrite (CmdWorkspaceSelect_loaded _ _ _ _ _ _ Hhelp Hf).
  by rewrite (findWorkspace_fresh _ _ Hreg).
Qed.

Lemma registryOk_unchanged path w w' :
  w_files w' = w_files w -> registryOk path w -> registryOk path w'.
Proof. intros Heq (cur & upd & wss & Hf & Hinv). exists cur, upd, wss. by rewrite Heq. Qed.

Lemma registryOk_written path (files : gmap string FileData) cur upd wss t :
  homeInvariant cur wss ->
  registryOk path {| w_files := <[path := HomeYaml cur upd wss]> files;
                     w_trace := t |}.
Proof.
  intros Hinv. exists cur, upd, wss. split; [|done]. simpl.
  by rewrite lookup_insert_eq.
Qed.

(** X3. The invariant of the registry (a current workspace is a registered
    one) survives every run of [workspace add] and of [workspace select]:
    whatever the arguments, whether help is asked for, and whether or not a
    write fails on the way. *)
Theorem workspace_commands_keep_invariant path args w :
  registryOk path w ->
  registryOk path (CmdWorkspaceAdd path args w).2 /\
  registryOk path (CmdWorkspaceSelect path args w).2.
Proof.
  intros Hok. pose proof Hok as (cur & upd & wss & Hf & Hinv). split.
  - unfold CmdWorkspaceAdd.
    destruct (NeedHelp args _); [done|].
    unfold bind at 1. rewrite (checkAndLoadHC_existing _ _ _ _ _ Hf).
    destruct args as [|name [|wsPath [|c rest]]]; try done.
    unfold findWorkspace. simpl.
    destruct (findWorkspace_loop name wss) as [ws|]; [done|].
    unfold bind, ret, SaveHomeConfig, WriteFile, Printf, Marshal, emit. simpl.
    destruct (WriteFileErr (w_trace w) path _) as [e|]; simpl.
    { by apply (registryOk_unchanged path w). }
    destruct (String.eqb_spec cur "") as [->|Hcur]; simpl.
    + match goal with
      | |- context [match WriteFileErr ?t ?p ?d with _ => _ end] =>
          destruct (WriteFileErr t p d) as [e|]
      end; simpl.
      * apply registryOk_written. by intros Hne.
      * apply registryOk_written.
        intros _. unfold registered. rewrite map_app.
        apply elem_of_app. right. left.
    + apply registryOk_written. intros Hne. by apply registered_app, Hinv.
  - unfold CmdWorkspaceSelect.
    destruct (NeedHelp args _); [done|].
    unfold bind at 1. rewrite (checkAndLoadHC_existing _ _ _ _ _ Hf).
    destruct args as [|name [|c rest]]; try done.
    unfold findWorkspace. simpl.
    destruct (findWorkspace_loop name wss) as [ws|] eqn:Hfind; [|done].
    unfold bind, SaveHomeConfig, WriteFile, Printf, Marshal, emit. simpl.
    destruct (WriteFileErr (w_trace w) path _) as [e|]; simpl.
    { by apply (registryOk_unchanged path w). }
    apply registryOk_written.
    intros _. by eapply findWorkspace_loop_registered.
Qed.

(** X4. After a successful [workspace add] of a name, a second [workspace
    add] of that name, with whatever path, reports the collision and leaves
    the world as the first run left it. *)
Theorem CmdWorkspaceAdd_twice path name wsPath otherPath w cur upd wss :
  NeedHelp [name; wsPath] "workspace add NAME PATH" = false ->
  NeedHelp [name; otherPath] "workspace add NAME PATH" = false ->
  w_files w !! path = Some (HomeYaml cur upd wss) ->
  (CmdWorkspaceAdd path [name; wsPath] w).1 = Ok tt ->
  CmdWorkspaceAdd path [name; otherPath] (CmdWorkspaceAdd path [name; wsPath] w).2
  = (Err ("workspace with name '" +:+ name +:+ "' already exists"),
     (CmdWorkspaceAdd path [name; wsPath] w).2).
Proof.
  intros Hhelp Hhelp' Hf Hok.
  assert (exists cur', (CmdWorkspaceAdd path [name; wsPath] w).2.(w_files) !! path
            = Some (HomeYaml cur' upd
                      (wss ++ [{| Item_Name := name; Item_Path := wsPath |}])))
    as [cur' Hf'].
  { revert Hok. rewrite (CmdWorkspaceAdd_loaded _ _ _ _ _ _ _ Hhelp Hf).
    destruct (findWorkspace_loop name wss) as [ws|]; [discriminate|].
    unfold bind, ret, SaveHomeConfig, WriteFile, Printf, Marshal, emit. simpl.
    destruct (WriteFileErr (w_trace w) path _) as [e|]; [discriminate|].
    simpl. destruct (String.eqb cur ""); simpl.
    - match goal with
      | |- context [match WriteFileErr ?t ?p ?d with _ => _ end] =>
          destruct (WriteFileErr t p d) as [e|]; [discriminate|]
      end. simpl. intros _. exists name. by rewrite lookup_insert_eq.
    - intros _. exists cur. by rewrite lookup_insert_eq. }
  rewrite (CmdWorkspaceAdd_loaded _ _ _ _ _ _ _ Hhelp' Hf').
  assert (registered name
            (wss ++ [{| Item_Name := name; Item_Path := wsPath |}])) as Hreg.
  { unfold registered. rewrite map_app. apply elem_of_app. right. left. }
  by destruct (findWorkspace_registered _ _ Hreg) as [ws ->].
Qed.

Lemma checkAndLoadHC_absent_failed path w e :
  w_files w !! path = None ->
  WriteFileErr (w_trace w) path (HomeYaml "" defaultUpdateCommand []) = Some e ->
  checkAndLoadHC path w =
    (Err e, emit (EvWriteFile path (HomeYaml "" defaultUpdateCommand [])) w).
Proof.
  intros Hf Hw. unfold checkAndLoadHC, CheckHomeConfigIsEmpty,
    FileExists, SaveHomeConfig, WriteFile, Marshal, bind, ret.
  rewrite Hf. simpl. by rewrite Hw.
Qed.

(** A command that finds no document continues as if it had been started
    right after the default document was written. *)
Lemma checkAndLoadHC_initialised path w :
  w_files w !! path = None ->
  WriteFileErr (w_trace w) path (HomeYaml "" defaultUpdateCommand []) = None ->
  checkAndLoadHC path w = checkAndLoadHC path (initialised path w).
Proof.
  intros Hf Hw. rewrite (checkAndLoadHC_absent _ _ Hf Hw).
  symmetry. apply checkAndLoadHC_existing. unfold initialised. simpl.
  by rewrite lookup_insert_eq.
Qed.

Lemma current_path_of_document path w cur upd wss :
  w_files w !! path = Some (HomeYaml cur upd wss) ->
  (do hc <- LoadHomeConfig path; lift (GetCurrentWsPath hc)) w =
  (GetCurrentWsPath {| Home_Path := path; CurrentWorkspace := cur;
                       UpdateCommand := upd; Workspaces := wss |}, w).
Proof.
  intros Hf. unfold LoadHomeConfig, ReadFile, bind, ret, lift. by rewrite Hf.
Qed.

(** X5. The first [workspace add] on a machine that has no home-config
    document yet, when it succeeds: the document is created, the workspace
    is appended and made current (three writes), and the current workspace
    path then resolves to the path given. *)
Theorem CmdWorkspaceAdd_from_scratch path name wsPath w :
  NeedHelp [name; wsPath] "workspace add NAME PATH" = false ->
  w_files w !! path = None ->
  (CmdWorkspaceAdd path [name; wsPath] w).1 = Ok tt ->
  name <> "" ->
  let item := {| Item_Name := name; Item_Path := wsPath |} in
  let w' := (CmdWorkspaceAdd path [name; wsPath] w).2 in
  w_trace w' =
    w_trace w ++
    [EvWriteFile path (HomeYaml "" defaultUpdateCommand []);
     EvWriteFile path (HomeYaml "" defaultUpdateCommand [item]);
     EvPrint ("workspace '" +:+ name +:+ "' is added" +:+ nl);
     EvWriteFile path (HomeYaml name defaultUpdateCommand [item]);
     EvPrint ("active workspace changed to '" +:+ name +:+ "'" +:+ nl)] /\
  w_files w' !! path = Some (HomeYaml name defaultUpdateCommand [item]) /\
  (do hc <- LoadHomeConfig path; lift (GetCurrentWsPath hc)) w' = (Ok wsPath, w').
Proof.
  intros Hhelp Hf Hok Hname item w'.
  enough (w_trace w' =
    w_trace w ++
    [EvWriteFile path (HomeYaml "" defaultUpdateCommand []);
     EvWriteFile path (HomeYaml "" defaultUpdateCommand [item]);
     EvPrint ("workspace '" +:+ name +:+ "' is added" +:+ nl);
     EvWriteFile path (HomeYaml name defaultUpdateCommand [item]);
     EvPrint ("active workspace changed to '" +:+ name +:+ "'" +:+ nl)] /\
    w_files w' !! path = Some (HomeYaml name defaultUpdateCommand [item]))
    as [Htrace Hfile].
  { split; [done|]. split; [done|].
    rewrite (current_path_of_document _ _ _ _ _ Hfile).
    unfold GetCurrentWsPath. simpl.
    destruct (String.eqb_spec name "") as [|_]; [done|].
    by rewrite String.eqb_refl. }
  subst w'. revert Hok.
  destruct (WriteFileErr (w_trace w) path (HomeYaml "" defaultUpdateCommand []))
    as [e|] eqn:Hw0.
  { unfold CmdWorkspaceAdd. rewrite Hhelp. unfold bind at 1.
    by rewrite (checkAndLoadHC_absent_failed _ _ _ Hf Hw0). }
  assert (CmdWorkspaceAdd path [name; wsPath] w =
          CmdWorkspaceAdd path [name; wsPath] (initialised path w)) as ->.
  { unfold CmdWorkspaceAdd. rewrite Hhelp. unfold bind at 1 3.
    by rewrite (checkAndLoadHC_initialised _ _ Hf Hw0). }
  assert (w_files (initialised path w) !! path
          = Some (HomeYaml "" defaultUpdateCommand [])) as Hf'.
  { unfold initialised. simpl. by rewrite lookup_insert_eq. }
  rewrite (CmdWorkspaceAdd_loaded _ _ _ _ _ _ _ Hhelp Hf'). simpl.
  unfold bind, ret, SaveHomeConfig, WriteFile, Printf, Marshal, emit. simpl.
  match goal with
  | |- context [match WriteFileErr ?t ?p ?d with _ => _ end] =>
      destruct (WriteFileErr t p d) as [e|]; [discriminate|]
  end. simpl.
  match goal with
  | |- context [match WriteFileErr ?t ?p ?d with _ => _ end] =>
      destruct (WriteFileErr t p d) as [e|]; [discriminate|]
  end. simpl. intros _. rewrite !lookup_insert_eq.
  rewrite <- !app_assoc. by simpl.
Qed.

End RegistryFacts.

(** X7. Looking up a name after [AddWorkspace]: a name that was found before
    is found as before, also when it is the name added; the added entry is
    found only when its name was not registered; any other name is still not
    found. *)
Theorem AddWorkspace_findWorkspace `{Collaborators}
  (hc : HomeConfig) (name path other : string) :
  findWorkspace (AddWorkspace hc name path).1 other =
  match findWorkspace hc other with
  | Some ws => Some ws
  | None =>
      if String.eqb name other
      then Some {| Item_Name := name; Item_Path := path |}
      else None
  end.
Proof.
  unfold findWorkspace, AddWorkspace. simpl.
  rewrite findWorkspace_loop_app. by destruct (findWorkspace_loop other _).
Qed.

(** X8. [AddWorkspace] never redirects the current workspace: a current
    workspace path that resolved before the call resolves to the same path
    after it, whatever is added. *)
Theorem AddWorkspace_keeps_current_path `{Collaborators}
  (hc : HomeConfig) (name path current : string) :
  GetCurrentWsPath hc = Ok current ->
  GetCurrentWsPath (AddWorkspace hc name path).1 = Ok current.
Proof.
  unfold GetCurrentWsPath, AddWorkspace. simpl.
  destruct (String.eqb (CurrentWorkspace hc) ""); [done|].
  rewrite !GetCurrentWsPath_loop_find, findWorkspace_loop_app.
  by destruct (findWorkspace_loop _ (Workspaces hc)).
Qed.

(** ** List, show and update *)

Section ListShowUpdate.
Context `{Collaborators}.
Variable formatRow : string -> string -> string.
Variable ExecInteractive : list string -> list string -> M Z.

Lemma printRows_trace wss w :
  printRows formatRow wss w =
  (Ok tt,
   {| w_files := w_files w;
      w_trace := w_trace w ++
        map (fun ws => EvPrint (formatRow (Item_Name ws) (Item_Path ws))) wss |}).
Proof.
  revert w. induction wss as [|ws wss IH]; intros w; simpl.
  - unfold ret. destruct w. simpl. by rewrite app_nil_r.
  - unfold bind, Printf. rewrite IH. unfold emit. simpl.
    by rewrite <- app_assoc.
Qed.

(** X9. [workspace list] prints one row per registered workspace, in the
    order of the registry, and nothing else; it writes nothing and does not
    fail, also when no workspace is current or the current one is not
    registered. *)
Theorem CmdWorkspaceList_rows path args w cur upd wss :
  NeedHelp args "workspace list" = false ->
  w_files w !! path = Some (HomeYaml cur upd wss) ->
  CmdWorkspaceList formatRow path args w =
  (Ok tt,
   {| w_files := w_files w;
      w_trace := w_trace w ++
        map (fun ws => EvPrint (formatRow (Item_Name ws) (Item_Path ws))) wss |}).
Proof.
  intros Hhelp Hf. unfold CmdWorkspaceList. rewrite Hhelp.
  unfold bind at 1. rewrite (checkAndLoadHC_existing _ _ _ _ _ Hf). simpl.
  apply printRows_trace.
Qed.

(** X10. After a [workspace select] that succeeded, [workspace show] prints
    the name selected. *)
Theorem select_then_show path name showArgs w cur upd wss :
  NeedHelp [name] "workspace select NAME" = false ->
  NeedHelp showArgs "workspace show" = false ->
  w_files w !! path = Some (HomeYaml cur upd wss) ->
  (CmdWorkspaceSelect path [name] w).1 = Ok tt ->
  CmdWorkspaceShow path showArgs (CmdWorkspaceSelect path [name] w).2 =
  (Ok tt, emit (EvPrint (name +:+ nl)) (CmdWorkspaceSelect path [name] w).2).
Proof.
  intros Hhelp Hshow Hf Hok.
  assert (w_files (CmdWorkspaceSelect path [name] w).2 !! path
          = Some (HomeYaml name upd wss)) as Hf'.
  { revert Hok. rewrite (CmdWorkspaceSelect_loaded _ _ _ _ _ _ Hhelp Hf).
    destruct (findWorkspace_loop name wss) as [ws|]; [|discriminate].
    unfold bind, SaveHomeConfig, WriteFile, Printf, Marshal, emit. simpl.
    destruct (WriteFileErr _ _ _) as [e|]; [discriminate|]. simpl.
    intros _. by rewrite lookup_insert_eq. }
  unfold CmdWorkspaceShow. rewrite Hshow. unfold bind.
  by rewrite (checkAndLoadHC_existing _ _ _ _ _ Hf').
Qed.

(** X17. After a [workspace select] that succeeded, the current workspace
    path resolves to the path of the first workspace of the name selected
    (unless the name is the empty string, which never resolves). *)
Theorem select_then_resolves path name w cur upd wss ws :
  NeedHelp [name] "workspace select NAME" = false ->
  w_files w !! path = Some (HomeYaml cur upd wss) ->
  (CmdWorkspaceSelect path [name] w).1 = Ok tt ->
  findWorkspace_loop name wss = Some ws ->
  name <> "" ->
  (do hc <- LoadHomeConfig path; lift (GetCurrentWsPath hc))
    (CmdWorkspaceSelect path [name] w).2
  = (Ok (Item_Path ws), (CmdWorkspaceSelect path [name] w).2).
Proof.
  intros Hhelp Hf Hok Hfind Hname.
  assert (w_files (CmdWorkspaceSelect path [name] w).2 !! path
          = Some (HomeYaml name upd wss)) as Hf'.
  { revert Hok. rewrite (CmdWorkspaceSelect_loaded _ _ _ _ _ _ Hhelp Hf).
    rewrite Hfind.
    unfold bind, SaveHomeConfig, WriteFile, Printf, Marshal, emit. simpl.
    destruct (WriteFileErr _ _ _) as [e|]; [discriminate|]. simpl.
    intros _. by rewrite lookup_insert_eq. }
  rewrite (current_path_of_document _ _ _ _ _ Hf').
  unfold GetCurrentWsPath. simpl.
  destruct (String.eqb_spec name "") as [|_]; [done|].
  rewrite GetCurrentWsPath_loop_find. by rewrite Hfind.
Qed.

(** X18. [CheckHomeConfigIsEmpty] twice is [CheckHomeConfigIsEmpty] once:
    after a run that succeeded, a second run succeeds and changes
    nothing. *)
Theorem CheckHomeConfigIsEmpty_twice path w :
  (CheckHomeConfigIsEmpty path w).1 = Ok tt ->
  CheckHomeConfigIsEmpty path (CheckHomeConfigIsEmpty path w).2
  = (Ok tt, (CheckHomeConfigIsEmpty path w).2).
Proof.
  intros Hok.
  assert (is_Some (w_files (CheckHomeConfigIsEmpty path w).2 !! path)) as [d Hd].
  { revert Hok. unfold CheckHomeConfigIsEmpty, FileExists, SaveHomeConfig,
      WriteFile, Marshal, bind, ret.
    destruct (w_files w !! path) as [d|] eqn:Hf; simpl.
    - intros _. by rewrite Hf.
    - destruct (WriteFileErr _ _ _) as [e|]; [discriminate|]. simpl.
      intros _. rewrite lookup_insert_eq. by eexists. }
  unfold CheckHomeConfigIsEmpty at 1, FileExists, bind, ret.
  by rewrite Hd.
Qed.

(** X11. [update] runs [bash -c] on the update command of the document.  On
    a machine without a document it first writes the default document and
    then runs the default update command. *)
Theorem CmdUpdate_command path args w :
  NeedHelp args "update" = false ->
  (forall cur upd wss,
     w_files w !! path = Some (HomeYaml cur upd wss) ->
     CmdUpdate ExecInteractive path args w =
       (ExecInteractive ["bash"; "-c"; upd] [] ;; ret tt) w) /\
  (w_files w !! path = None ->
   WriteFileErr (w_trace w) path (HomeYaml "" defaultUpdateCommand []) = None ->
   CmdUpdate ExecInteractive path args w =
     (ExecInteractive ["bash"; "-c"; defaultUpdateCommand] [] ;; ret tt)
       (initialised path w)).
Proof.
  intros Hhelp. unfold CmdUpdate. rewrite Hhelp. split.
  - intros cur upd wss Hf. unfold bind at 1.
    by rewrite (checkAndLoadHC_existing _ _ _ _ _ Hf).
  - intros Hf Hw. unfold bind at 1.
    by rewrite (checkAndLoadHC_absent _ _ Hf Hw).
Qed.

End ListShowUpdate.

(** ** Start, restart, vars and compose *)

Section OtherServiceFacts.
Context `{Collaborators}.
Variable Start : Service -> SvcStartParams -> M unit.
Variable Restart : Service -> SvcRestartParams -> M unit.
Variable DumpVars : Service -> M unit.
Variable Compose : Service -> SvcComposeParams -> M Z.

(** When the workspace configuration cannot be loaded, no service command
    creates a service or calls a method: [stop], [destroy] and [vars] stop
    there whatever their arguments are, [start], [restart], [compose] and
    [exec] once their flags are parsed. *)
Lemma load_failure_stops path args w e w' :
  getWorkspaceConfig path w = (Err e, w') ->
  (NeedHelp args "stop [NAMES...]" = false ->
     CmdServiceStop path args w = (Err e, w')) /\
  (NeedHelp args "destroy [NAMES...]" = false ->
     CmdServiceDestroy path args w = (Err e, w')) /\
  (NeedHelp args "vars [NAME]" = false ->
     CmdServiceVars DumpVars path args w = (Err e, w')) /\
  (NeedHelp args "start [OPTIONS] [NAMES...]" = false ->
     forall parsed, Parse (addStartFlags []) args = Ok parsed ->
     CmdServiceStart Start path args w = (Err e, w')) /\
  (NeedHelp args "restart [OPTIONS] [NAMES...]" = false ->
     forall parsed, Parse [("hard", BoolFlag false)] args = Ok parsed ->
     CmdServiceRestart Restart path args w = (Err e, w')) /\
  (NeedHelp args "compose [OPTIONS] COMMAND [ARGS]" = false ->
     forall parsed, Parse (addComposeFlags []) args = Ok parsed ->
     CmdServiceCompose Compose path args w = (Err e, w')) /\
  (NeedHelp args "[OPTIONS] COMMAND [ARGS]" = false ->
     forall parsed,
       Parse (addExecFlags (addStartFlags (addComposeFlags []))) args = Ok parsed ->
     CmdServiceExec path args w = (Err e, w')).
Proof.
  intros Hcfg. repeat split.
  - intros Hhelp. unfold CmdServiceStop, stopOrDestroy. rewrite Hhelp.
    unfold bind at 1. by rewrite Hcfg.
  - intros Hhelp. unfold CmdServiceDestroy, stopOrDestroy. rewrite Hhelp.
    unfold bind at 1. by rewrite Hcfg.
  - intros Hhelp. unfold CmdServiceVars. rewrite Hhelp.
    unfold bind at 1. by rewrite Hcfg.
  - intros Hhelp parsed Hp. unfold CmdServiceStart. rewrite Hhelp.
    unfold bind at 1, lift. rewrite Hp. unfold bind at 1. by rewrite Hcfg.
  - intros Hhelp parsed Hp. unfold CmdServiceRestart. rewrite Hhelp.
    unfold bind at 1, lift. rewrite Hp. unfold bind at 1. by rewrite Hcfg.
  - intros Hhelp parsed Hp. unfold CmdServiceCompose. rewrite Hhelp.
    unfold bind at 1, lift. rewrite Hp. unfold bind at 1. by rewrite Hcfg.
  - intros Hhelp parsed Hp. unfold CmdServiceExec. rewrite Hhelp.
    unfold bind at 1, lift. rewrite Hp. unfold bind at 1. by rewrite Hcfg.
Qed.

Lemma getWorkspaceConfig_fresh path w :
  w_files w !! path = None ->
  WriteFileErr (w_trace w) path (HomeYaml "" defaultUpdateCommand []) = None ->
  getWorkspaceConfig path w =
    (Err "current workspace is not set", initialised path w).
Proof.
  intros Hf Hw. unfold getWorkspaceConfig. unfold bind at 1.
  by rewrite (checkAndLoadHC_absent _ _ Hf Hw).
Qed.

(** X12. On a machine that has no home-config document, a service command
    writes the default document and fails with "current workspace is not
    set"; no service is created and no method is called.  [stop], [destroy]
    and [vars] do so whatever their arguments are, [start], [restart],
    [compose] and [exec] when their flags parse. *)
Theorem no_service_before_first_workspace path args w :
  w_files w !! path = None ->
  WriteFileErr (w_trace w) path (HomeYaml "" defaultUpdateCommand []) = None ->
  (NeedHelp args "stop [NAMES...]" = false ->
     CmdServiceStop path args w =
       (Err "current workspace is not set", initialised path w)) /\
  (NeedHelp args "destroy [NAMES...]" = false ->
     CmdServiceDestroy path args w =
       (Err "current workspace is not set", initialised path w)) /\
  (NeedHelp args "vars [NAME]" = false ->
     CmdServiceVars DumpVars path args w =
       (Err "current workspace is not set", initialised path w)) /\
  (NeedHelp args "start [OPTIONS] [NAMES...]" = false ->
     forall parsed, Parse (addStartFlags []) args = Ok parsed ->
     CmdServiceStart Start path args w =
       (Err "current workspace is not set", initialised path w)) /\
  (NeedHelp args "restart [OPTIONS] [NAMES...]" = false ->
     forall parsed, Parse [("hard", BoolFlag false)] args = Ok parsed ->
     CmdServiceRestart Restart path args w =
       (Err "current workspace is not set", initialised path w)) /\
  (NeedHelp args "compose [OPTIONS] COMMAND [ARGS]" = false ->
     forall parsed, Parse (addComposeFlags []) args = Ok parsed ->
     CmdServiceCompose Compose path args w =
       (Err "current workspace is not set", initialised path w)) /\
  (NeedHelp args "[OPTIONS] COMMAND [ARGS]" = false ->
     forall parsed,
       Parse (addExecFlags (addStartFlags (addComposeFlags []))) args = Ok parsed ->
     CmdServiceExec path args w =
       (Err "current workspace is not set", initialised path w)).
Proof.
  intros Hf Hw.
  apply (load_failure_stops path args w _ _ (getWorkspaceConfig_fresh _ _ Hf Hw)).
Qed.

(** A flag that does not parse makes [start], [restart], [compose] and
    [exec] return the flag error before anything is read or written. *)
Lemma flag_error_comes_first path args w :
  (forall e, NeedHelp args "start [OPTIONS] [NAMES...]" = false ->
     Parse (addStartFlags []) args = Err e ->
     CmdServiceStart Start path args w = (Err e, w)) /\
  (forall e, NeedHelp args "restart [OPTIONS] [NAMES...]" = false ->
     Parse [("hard", BoolFlag false)] args = Err e ->
     CmdServiceRestart Restart path args w = (Err e, w)) /\
  (forall e, NeedHelp args "compose [OPTIONS] COMMAND [ARGS]" = false ->
     Parse (addComposeFlags []) args = Err e ->
     CmdServiceCompose Compose path args w = (Err e, w)) /\
  (forall e, NeedHelp args "[OPTIONS] COMMAND [ARGS]" = false ->
     Parse (addExecFlags (addStartFlags (addComposeFlags []))) args = Err e ->
     CmdServiceExec path args w = (Err e, w)).
Proof.
  repeat split; intros e Hhelp Hp.
  - unfold CmdServiceStart. rewrite Hhelp. unfold bind at 1, lift. by rewrite Hp.
  - unfold CmdServiceRestart. rewrite Hhelp. unfold bind at 1, lift. by rewrite Hp.
  - unfold CmdServiceCompose. rewrite Hhelp. unfold bind at 1, lift. by rewrite Hp.
  - unfold CmdServiceExec. rewrite Hhelp. unfold bind at 1, lift. by rewrite Hp.
Qed.

Lemma forEachService_step cfg method n names w :
  forEachService cfg method (n :: names) w =
  match CreateFromSvcName cfg n with
  | Ok svc =>
      match method svc w with
      | (Ok _, w1) => forEachService cfg method names w1
      | (Err e, w1) => (Err e, w1)
      end
  | Err e => (Err e, w)
  end.
Proof.
  simpl. unfold bind, lift.
  by destruct (CreateFromSvcName cfg n).
Qed.

(** The loop over two lists of names is the loop over the first and then,
    if that succeeded, the loop over the second. *)
Lemma forEachService_app cfg method pre post w :
  forEachService cfg method (pre ++ post) w =
  match forEachService cfg method pre w with
  | (Ok _, w2) => forEachService cfg method post w2
  | (Err e, w2) => (Err e, w2)
  end.
Proof.
  revert w. induction pre as [|n pre IH]; intros w; [done|].
  rewrite <- app_comm_cons, !forEachService_step.
  destruct (CreateFromSvcName cfg n) as [svc|e]; [|done].
  destruct (method svc w) as [[[]|e] w1]; [|done]. apply IH.
Qed.

(** [start] and [restart] once the flags are parsed and the manifest is
    loaded. *)
Lemma CmdServiceStart_loaded path args w fs names cfg w1 :
  NeedHelp args "start [OPTIONS] [NAMES...]" = false ->
  Parse (addStartFlags []) args = Ok (fs, names) ->
  getWorkspaceConfig path w = (Ok cfg, w1) ->
  CmdServiceStart Start path args w =
  namedOrHere cfg (fun svc => Start svc (startParamsOf fs)) names w1.
Proof.
  intros Hhelp Hp Hcfg. unfold CmdServiceStart. rewrite Hhelp.
  unfold bind at 1, lift. rewrite Hp. unfold bind at 1. by rewrite Hcfg.
Qed.

Lemma CmdServiceRestart_loaded path args w fs names cfg w1 :
  NeedHelp args "restart [OPTIONS] [NAMES...]" = false ->
  Parse [("hard", BoolFlag false)] args = Ok (fs, names) ->
  getWorkspaceConfig path w = (Ok cfg, w1) ->
  CmdServiceRestart Restart path args w =
  namedOrHere cfg (fun svc => Restart svc {| Hard := flagBool "hard" fs |})
    names w1.
Proof.
  intros Hhelp Hp Hcfg. unfold CmdServiceRestart. rewrite Hhelp.
  unfold bind at 1, lift. rewrite Hp. unfold bind at 1. by rewrite Hcfg.
Qed.

Lemma namedOrHere_stops cfg method pre n post w1 w2 e :
  forEachService cfg method pre w1 = (Ok tt, w2) ->
  CreateFromSvcName cfg n = Err e ->
  namedOrHere cfg method (pre ++ n :: post) w1 = (Err e, w2).
Proof.
  intros Hpre Hn.
  assert (namedOrHere cfg method (pre ++ n :: post) w1
          = forEachService cfg method (pre ++ n :: post) w1) as ->
    by by destruct pre.
  rewrite forEachService_app, Hpre, forEachService_step. by rewrite Hn.
Qed.

(** X13. [start] and [restart] take their names in the order given and do
    not roll back: when the names before an unknown one have been started
    (restarted), the command returns the error of the unknown name, the
    world is as those calls left it, and no later name is touched. *)
Theorem start_restart_stop_at_unknown_name
  path args w fs pre n post cfg w1 w2 e :
  getWorkspaceConfig path w = (Ok cfg, w1) ->
  CreateFromSvcName cfg n = Err e ->
  (NeedHelp args "start [OPTIONS] [NAMES...]" = false ->
     Parse (addStartFlags []) args = Ok (fs, pre ++ n :: post) ->
     forEachService cfg (fun svc => Start svc (startParamsOf fs)) pre w1
       = (Ok tt, w2) ->
     CmdServiceStart Start path args w = (Err e, w2)) /\
  (NeedHelp args "restart [OPTIONS] [NAMES...]" = false ->
     Parse [("hard", BoolFlag false)] args = Ok (fs, pre ++ n :: post) ->
     forEachService cfg
       (fun svc => Restart svc {| Hard := flagBool "hard" fs |}) pre w1
       = (Ok tt, w2) ->
     CmdServiceRestart Restart path args w = (Err e, w2)).
Proof.
  intros Hcfg Hn. split; intros Hhelp Hp Hpre.
  - rewrite (CmdServiceStart_loaded _ _ _ _ _ _ _ Hhelp Hp Hcfg).
    by apply namedOrHere_stops.
  - rewrite (CmdServiceRestart_loaded _ _ _ _ _ _ _ Hhelp Hp Hcfg).
    by apply namedOrHere_stops.
Qed.

(** X14. The words after [--].  For [start] they are the names, with the
    default options, also when a word looks like a flag.  For [stop] and
    [destroy], which take their names from the arguments as given, [--] is
    itself the first name: when no service is called [--] the command fails
    there and calls nothing. *)
Theorem words_after_terminator path names w cfg w1 :
  getWorkspaceConfig path w = (Ok cfg, w1) ->
  (NeedHelp ("--" :: names) "start [OPTIONS] [NAMES...]" = false ->
     CmdServiceStart Start path ("--" :: names) w =
     namedOrHere cfg
       (fun svc => Start svc {| Mode := "default"; Force := false |})
       names w1) /\
  (forall usage call e,
     NeedHelp ("--" :: names) usage = false ->
     CreateFromSvcName cfg "--" = Err e ->
     stopOrDestroy usage call path ("--" :: names) w = (Err e, w1)).
Proof.
  intros Hcfg. split.
  - intros Hhelp.
    by rewrite (CmdServiceStart_loaded _ _ _ (addStartFlags []) names _ _
                  Hhelp eq_refl Hcfg).
  - intros usage call e Hhelp Hcreate.
    rewrite (stopOrDestroy_loaded _ _ _ _ _ _ _
               [("all", BoolFlag false)] names Hhelp Hcfg eq_refl).
    change (flagBool "all" [("all", BoolFlag false)]) with false.
    cbv beta iota. rewrite forEachSvc_step. by rewrite Hcreate.
Qed.

(** X15. A name given explicitly decides alone: [vars NAME ...] looks at
    the first argument only, [compose --svc=NAME] and [exec --svc=NAME] at
    the flag; the working directory is not consulted.  [compose] takes the
    name as a service name as it is; [exec] takes the hosting service when
    the name is a module, and the name itself otherwise. *)
Theorem explicit_name_decides path args w cfg w1 :
  getWorkspaceConfig path w = (Ok cfg, w1) ->
  (forall name rest,
     args = name :: rest ->
     NeedHelp args "vars [NAME]" = false ->
     CmdServiceVars DumpVars path args w =
       (do svc <- lift (CreateFromSvcName cfg name); DumpVars svc ;; ret tt) w1) /\
  (forall fs cmd,
     NeedHelp args "compose [OPTIONS] COMMAND [ARGS]" = false ->
     Parse (addComposeFlags []) args = Ok (fs, cmd) ->
     flagString "svc" fs <> "" ->
     CmdServiceCompose Compose path args w =
       (do svc <- lift (CreateFromSvcName cfg (flagString "svc" fs));
        Compose svc {| SvcName := flagString "svc" fs; Cmd := cmd |}) w1) /\
  (forall fs cmd,
     NeedHelp args "[OPTIONS] COMMAND [ARGS]" = false ->
     Parse (addExecFlags (addStartFlags (addComposeFlags []))) args = Ok (fs, cmd) ->
     flagString "svc" fs <> "" ->
     let target := match FindModuleByName cfg (flagString "svc" fs) with
                   | Ok mdl => HostedIn mdl
                   | Err _ => flagString "svc" fs
                   end in
     CmdServiceExec path args w =
       (do svc <- lift (CreateFromSvcName cfg target);
        callSvc svc (CallExec (execParamsOf fs cmd target ""))) w1).
Proof.
  intros Hcfg. split; [|split].
  - intros name rest -> Hhelp. unfold CmdServiceVars. rewrite Hhelp.
    unfold bind at 1. rewrite Hcfg. by unfold bind at 1, ret.
  - intros fs cmd Hhelp Hp Hsvc. unfold CmdServiceCompose. rewrite Hhelp.
    unfold bind at 1, lift. rewrite Hp. unfold bind at 1. rewrite Hcfg. simpl.
    destruct (String.eqb_spec (flagString "svc" fs) "") as [|_]; [done|].
    unfold bind at 1, ret. unfold bind, lift.
    destruct (CreateFromSvcName cfg _) as [svc|e]; [|done].
    by destruct (Compose svc _ w1) as [[code|e] w2].
  - intros fs cmd Hhelp Hp Hsvc target. subst target.
    rewrite (CmdServiceExec_loaded _ _ _ _ _ _ _ Hhelp Hp Hcfg).
    unfold resolveExecTarget.
    destruct (String.eqb_spec (flagString "svc" fs) "") as [|_]; [done|].
    unfold bind, lift.
    by destruct (FindModuleByName cfg (flagString "svc" fs)) as [mdl|e'];
      destruct (CreateFromSvcName cfg _).
Qed.

(** X16. [exec] without [--svc] reports a failed resolution before it
    creates or calls a service: when neither a module nor a service is found
    from the working directory the error is the one of the service lookup,
    and when the exec path of the module found does not render the error is
    the one of the rendering. *)
Theorem exec_resolution_errors path args w fs cmd cfg w1 :
  NeedHelp args "[OPTIONS] COMMAND [ARGS]" = false ->
  Parse (addExecFlags (addStartFlags (addComposeFlags []))) args = Ok (fs, cmd) ->
  flagString "svc" fs = "" ->
  getWorkspaceConfig path w = (Ok cfg, w1) ->
  (forall e' e,
     FindModuleByPath cfg = Err e' -> FindServiceByPath cfg = Err e ->
     CmdServiceExec path args w = (Err e, w1)) /\
  (forall mdl e,
     FindModuleByPath cfg = Ok mdl -> renderPath cfg (ExecPath mdl) = Err e ->
     CmdServiceExec path args w = (Err e, w1)).
Proof.
  intros Hhelp Hp Hsvc Hcfg.
  rewrite (CmdServiceExec_loaded _ _ _ _ _ _ _ Hhelp Hp Hcfg).
  unfold resolveExecTarget. rewrite Hsvc. simpl. split.
  - by intros e' e -> ->.
  - intros mdl e -> Hr. by rewrite Hr.
Qed.

End OtherServiceFacts.

(** ** Instances of the further properties *)

Lemma CmdWorkspaceSelect_registered_witness :
  @CmdWorkspaceSelect (Scenario.envAt "/") Scenario.homePath ["side"]
    (Scenario.world Runs.twoWorkspaces)
  = (Ok tt,
     {| w_files :=
          <[Scenario.homePath :=
              HomeYaml "side" defaultUpdateCommand
                [Scenario.mainWs; Runs.sideWs]]>
            (w_files (Scenario.world Runs.twoWorkspaces));
        w_trace :=
          w_trace (Scenario.world Runs.twoWorkspaces) ++
          [EvWriteFile Scenario.homePath
             (HomeYaml "side" defaultUpdateCommand
                [Scenario.mainWs; Runs.sideWs]);
           EvPrint ("active workspace changed to '" +:+ "side" +:+ "'" +:+ nl)] |}).
Proof.
  apply (@CmdWorkspaceSelect_registered (Scenario.envAt "/") Scenario.homePath
           "side" (Scenario.world Runs.twoWorkspaces)
           "main" defaultUpdateCommand [Scenario.mainWs; Runs.sideWs]
           eq_refl eq_refl).
  - unfold registered. simpl. right. left.
  - reflexivity.
Defined.

Lemma CmdWorkspaceSelect_unknown_witness :
  @CmdWorkspaceSelect (Scenario.envAt "/") Scenario.homePath ["side"]
    (Scenario.world Scenario.home)
  = (Err ("workspace with name '" +:+ "side" +:+ "' is not defined"),
     Scenario.world Scenario.home).
Proof.
  apply (@CmdWorkspaceSelect_unknown (Scenario.envAt "/") Scenario.homePath
           "side" (Scenario.world Scenario.home)
           "main" defaultUpdateCommand [Scenario.mainWs]
           eq_refl eq_refl).
  unfold registered. simpl. intros Hin.
  apply list_elem_of_singleton in Hin. discriminate.
Defined.

Lemma scenario_registryOk : registryOk Scenario.homePath (Scenario.world Scenario.home).
Proof.
  exists "main", defaultUpdateCommand, [Scenario.mainWs].
  split; [reflexivity|]. intros _. unfold registered. simpl. left.
Qed.

Lemma workspace_commands_keep_invariant_witness :
  registryOk Scenario.homePath
    (@CmdWorkspaceAdd (Scenario.envAt "/") Scenario.homePath
       ["side"; "/side"] (Scenario.world Scenario.home)).2 /\
  registryOk Scenario.homePath
    (@CmdWorkspaceSelect (Scenario.envAt "/") Scenario.homePath
       ["side"; "/side"] (Scenario.world Scenario.home)).2.
Proof.
  exact (@workspace_commands_keep_invariant (Scenario.envAt "/")
           Scenario.homePath ["side"; "/side"] (Scenario.world Scenario.home)
           scenario_registryOk).
Defined.

Lemma CmdWorkspaceAdd_twice_witness :
  @CmdWorkspaceAdd (Scenario.envAt "/") Scenario.homePath ["side"; "/other"]
    (@CmdWorkspaceAdd (Scenario.envAt "/") Scenario.homePath ["side"; "/side"]
       (Scenario.world Scenario.home)).2
  = (Err ("workspace with name '" +:+ "side" +:+ "' already exists"),
     (@CmdWorkspaceAdd (Scenario.envAt "/") Scenario.homePath ["side"; "/side"]
        (Scenario.world Scenario.home)).2).
Proof.
  exact (@CmdWorkspaceAdd_twice (Scenario.envAt "/") Scenario.homePath
           "side" "/side" "/other" (Scenario.world Scenario.home)
           "main" defaultUpdateCommand [Scenario.mainWs]
           eq_refl eq_refl eq_refl eq_refl).
Defined.

Lemma CmdWorkspaceAdd_from_scratch_witness :
  w_files (@CmdWorkspaceAdd (Scenario.envAt "/") Scenario.homePath
             ["main"; "/ws"] Scenario.emptyWorld).2 !! Scenario.homePath
  = Some (HomeYaml "main" defaultUpdateCommand [Scenario.mainWs]).
Proof.
  apply (@CmdWorkspaceAdd_from_scratch (Scenario.envAt "/") Scenario.homePath
           "main" "/ws" Scenario.emptyWorld eq_refl eq_refl eq_refl).
  discriminate.
Defined.

Lemma AddWorkspace_keeps_current_path_witness :
  GetCurrentWsPath
    (@AddWorkspace (Scenario.envAt "/")
       {| Home_Path := Scenario.homePath; CurrentWorkspace := "main";
          UpdateCommand := "true"; Workspaces := [Scenario.mainWs] |}
       "main" "/other").1
  = Ok "/ws".
Proof.
  exact (@AddWorkspace_keeps_current_path (Scenario.envAt "/")
           {| Home_Path := Scenario.homePath; CurrentWorkspace := "main";
              UpdateCommand := "true"; Workspaces := [Scenario.mainWs] |}
           "main" "/other" "/ws" eq_refl).
Defined.

Lemma CmdWorkspaceList_rows_witness :
  @CmdWorkspaceList (Scenario.envAt "/") Runs.formatRow Scenario.homePath []
    (Scenario.world Scenario.home)
  = (Ok tt,
     {| w_files := w_files (Scenario.world Scenario.home);
        w_trace := w_trace (Scenario.world Scenario.home) ++
          map (fun ws => EvPrint (Runs.formatRow (Item_Name ws) (Item_Path ws)))
              [Scenario.mainWs] |}).
Proof.
  exact (@CmdWorkspaceList_rows (Scenario.envAt "/") Runs.formatRow
           Scenario.homePath [] (Scenario.world Scenario.home)
           "main" defaultUpdateCommand [Scenario.mainWs] eq_refl eq_refl).
Defined.

Lemma select_then_show_witness :
  @CmdWorkspaceShow (Scenario.envAt "/") Scenario.homePath []
    (@CmdWorkspaceSelect (Scenario.envAt "/") Scenario.homePath ["main"]
       (Scenario.world Scenario.home)).2
  = (Ok tt,
     emit (EvPrint ("main" +:+ nl))
       (@CmdWorkspaceSelect (Scenario.envAt "/") Scenario.homePath ["main"]
          (Scenario.world Scenario.home)).2).
Proof.
  exact (@select_then_show (Scenario.envAt "/") Scenario.homePath "main" []
           (Scenario.world Scenario.home) "main" defaultUpdateCommand
           [Scenario.mainWs] eq_refl eq_refl eq_refl eq_refl).
Defined.

Lemma select_then_resolves_witness :
  (do hc <- LoadHomeConfig Scenario.homePath;
   lift (GetCurrentWsPath hc))
    (@CmdWorkspaceSelect (Scenario.envAt "/") Scenario.homePath ["main"]
       (Scenario.world Scenario.home)).2
  = (Ok (Item_Path Scenario.mainWs),
     (@CmdWorkspaceSelect (Scenario.envAt "/") Scenario.homePath ["main"]
        (Scenario.world Scenario.home)).2).
Proof.
  apply (@select_then_resolves (Scenario.envAt "/") Scenario.homePath "main"
           (Scenario.world Scenario.home) "main" defaultUpdateCommand
           [Scenario.mainWs] Scenario.mainWs eq_refl eq_refl eq_refl eq_refl).
  discriminate.
Defined.

Lemma CheckHomeConfigIsEmpty_twice_witness :
  @CheckHomeConfigIsEmpty (Scenario.envAt "/") Scenario.homePath
    (@CheckHomeConfigIsEmpty (Scenario.envAt "/") Scenario.homePath
       Scenario.emptyWorld).2
  = (Ok tt,
     (@CheckHomeConfigIsEmpty (Scenario.envAt "/") Scenario.homePath
        Scenario.emptyWorld).2).
Proof.
  exact (@CheckHomeConfigIsEmpty_twice (Scenario.envAt "/") Scenario.homePath
           Scenario.emptyWorld eq_refl).
Defined.

Lemma CmdUpdate_command_witness :
  @CmdUpdate (Scenario.envAt "/") Runs.ExecInteractive Scenario.homePath []
    Scenario.emptyWorld
  = (Runs.ExecInteractive ["bash"; "-c"; defaultUpdateCommand] [] ;; ret tt)
      (initialised Scenario.homePath Scenario.emptyWorld).
Proof.
  exact (proj2 (@CmdUpdate_command (Scenario.envAt "/") Runs.ExecInteractive
                  Scenario.homePath [] Scenario.emptyWorld eq_refl)
           eq_refl eq_refl).
Defined.

Lemma no_service_before_first_workspace_witness :
  @CmdServiceStop (Scenario.envAt "/ws/db") Scenario.homePath ["web"]
    Scenario.emptyWorld
  = (Err "current workspace is not set",
     initialised Scenario.homePath Scenario.emptyWorld).
Proof.
  exact (proj1 (@no_service_before_first_workspace (Scenario.envAt "/ws/db")
                  Runs.Start (fun _ _ => ret tt) Runs.DumpVars
                  (fun _ _ => ret 0%Z)
                  Scenario.homePath ["web"] Scenario.emptyWorld
                  eq_refl eq_refl) eq_refl).
Defined.

Lemma start_restart_stop_at_unknown_name_witness :
  @CmdServiceStart (Scenario.envAt "/ws/db") Runs.Start Scenario.homePath
    ["web"; "nope"; "db"] (Scenario.world Scenario.home)
  = (Err ("service '" +:+ "nope" +:+ "' is not found"),
     emit (EvPrint "start web default") (Scenario.world Scenario.home)).
Proof.
  exact (proj1 (@start_restart_stop_at_unknown_name (Scenario.envAt "/ws/db")
                  Runs.Start (fun _ _ => ret tt)
                  Scenario.homePath ["web"; "nope"; "db"]
                  (Scenario.world Scenario.home)
                  (@addStartFlags [])
                  ["web"] "nope" ["db"] (Scenario.cfg "/ws/db")
                  (Scenario.world Scenario.home)
                  (emit (EvPrint "start web default")
                     (Scenario.world Scenario.home))
                  _ eq_refl eq_refl)
           eq_refl eq_refl eq_refl).
Defined.

Lemma words_after_terminator_witness :
  @CmdServiceStart (Scenario.envAt "/ws/db") Runs.Start Scenario.homePath
    ["--"; "--force"; "web"] (Scenario.world Scenario.home)
  = @namedOrHere (Scenario.envAt "/ws/db") (Scenario.cfg "/ws/db")
      (fun svc => Runs.Start svc {| Mode := "default"; Force := false |})
      ["--force"; "web"] (Scenario.world Scenario.home).
Proof.
  exact (proj1 (@words_after_terminator (Scenario.envAt "/ws/db") Runs.Start
                  Scenario.homePath ["--force"; "web"]
                  (Scenario.world Scenario.home) (Scenario.cfg "/ws/db")
                  (Scenario.world Scenario.home) eq_refl) eq_refl).
Defined.

Lemma explicit_name_decides_witness :
  @CmdServiceVars (Scenario.envAt "/ws/db") Runs.DumpVars Scenario.homePath
    ["web"; "more"] (Scenario.world Scenario.home)
  = (do svc <- lift (@CreateFromSvcName (Scenario.envAt "/ws/db")
                       (Scenario.cfg "/ws/db") "web");
     Runs.DumpVars svc ;; ret tt) (Scenario.world Scenario.home).
Proof.
  exact (proj1 (@explicit_name_decides (Scenario.envAt "/ws/db") Runs.DumpVars
                  (fun _ _ => ret 0%Z) Scenario.homePath ["web"; "more"]
                  (Scenario.world Scenario.home) (Scenario.cfg "/ws/db")
                  (Scenario.world Scenario.home) eq_refl)
           "web" ["more"] eq_refl eq_refl).
Defined.

Lemma exec_resolution_errors_witness :
  @CmdServiceExec (Scenario.envAt "/tmp") Scenario.homePath ["ls"]
    (Scenario.world Scenario.home)
  = (Err ("service " +:+ "not found"), Scenario.world Scenario.home).
Proof.
  exact (proj1 (@exec_resolution_errors (Scenario.envAt "/tmp")
                  Scenario.homePath ["ls"] (Scenario.world Scenario.home)
                  (@addExecFlags (Scenario.envAt "/tmp")
                     (addStartFlags (addComposeFlags [])))
                  ["ls"] (Scenario.cfg "/tmp") (Scenario.world Scenario.home)
                  eq_refl eq_refl eq_refl eq_refl)
           ("module " +:+ "not found") ("service " +:+ "not found")
           eq_refl eq_refl).
Defined.
